(** * Document validation: version comparison and lineage resolution

    A shallow embedding of the [DocumentValidator] class (validator script of
    the document page): [findDocumentByValidationId],
    [getLatestDocumentVersion], [compareVersions], [isLatestVersion] and
    [validateDocument], together with the parts of the JavaScript run time
    those methods lean on ([String.prototype.split], [Number] applied to a
    string, the relational operators on numbers, [Array.prototype.filter],
    [find] and [sort]).  Around them, the loading of the documents ([init],
    [loadDocuments]) and the rendering of the contact text ([linkifyText],
    [escapeHtml]). *)

From Stdlib Require Import List String Ascii ZArith NArith Bool Lia SpecFloat.
From Stdlib Require Import Sorting.Sorted Sorting.Permutation.
From Stdlib Require Import DecimalString.
Import ListNotations.

Local Open Scope Z_scope.

(** ** JavaScript numbers

    A Number is an IEEE 754 binary64 value.  The standard library's
    [spec_float] (sign, mantissa, exponent, with zeros, infinities and one
    NaN) is used at precision 53 and maximal exponent 1024. *)
Module JS.

Definition number := spec_float.

Definition prec : Z := 53.
Definition emax : Z := 1024.

Definition NaN : number := S754_nan.
Definition zero : number := S754_zero false.

(** [ToBoolean] on a Number: [+0], [-0] and [NaN] are falsy. *)
Definition truthy (x : number) : bool :=
  match x with
  | S754_zero _ | S754_nan => false
  | _ => true
  end.

(** [x || y] on Numbers. *)
Definition or_else (x y : number) : number := if truthy x then x else y.

(** [x < y] and [x > y]; a comparison in which a NaN takes part is false. *)
Definition lt (x y : number) : bool := SFltb x y.
Definition gt (x y : number) : bool := SFltb y x.

(** The Number value of the rational [m * 10 ^ e] with sign [neg]: the
    nearest binary64 value, ties to even. *)
Definition of_decimal (neg : bool) (m : N) (e : Z) : number :=
  match m with
  | N0 => S754_zero neg
  | Npos p =>
      if 0 <=? e
      then binary_normalize prec emax
             (if neg then Z.neg p * 10 ^ e else Z.pos p * 10 ^ e) 0 neg
      else
        let '(mz, ez, lz) :=
          SFdiv_core_binary prec emax (Z.pos p) 0 (10 ^ (- e)) 0 in
        binary_round_aux prec emax neg mz ez lz
  end.

(** *** Strings

    A string is the sequence of its code units; [ascii] covers the code
    units below 256, which is all a version string needs. *)

(** [StrWhiteSpaceChar]: TAB, LF, VT, FF, CR, SP and NBSP are the white
    space and line terminator code units below 256. *)
Definition is_whitespace (c : ascii) : bool :=
  match N_of_ascii c with
  | 9 | 10 | 11 | 12 | 13 | 32 | 160 => true
  | _ => false
  end%N.

Fixpoint drop_whitespace (l : list ascii) : list ascii :=
  match l with
  | c :: l' => if is_whitespace c then drop_whitespace l' else l
  | [] => []
  end.

Definition trim (l : list ascii) : list ascii :=
  rev (drop_whitespace (rev (drop_whitespace l))).

(** The value of a digit in a base up to 16, if it is one. *)
Definition digit_value (base : N) (c : ascii) : option N :=
  (let n := N_of_ascii c in
   let v :=
     if (48 <=? n) && (n <=? 57) then Some (n - 48)
     else if (97 <=? n) && (n <=? 102) then Some (n - 87)
     else if (65 <=? n) && (n <=? 70) then Some (n - 55)
     else None in
   match v with
   | Some d => if d <? base then Some d else None
   | None => None
   end)%N.

(** The longest prefix of digits of [l]: its value, its length and what
    follows it. *)
Fixpoint read_digits (base : N) (l : list ascii) (acc : N) (len : nat)
  : N * nat * list ascii :=
  match l with
  | c :: l' =>
      match digit_value base c with
      | Some d => read_digits base l' (acc * base + d)%N (S len)
      | None => (acc, len, l)
      end
  | [] => (acc, len, [])
  end.

(** [NonDecimalIntegerLiteral] after its prefix: one digit or more and
    nothing else. *)
Definition non_decimal (base : N) (l : list ascii) : number :=
  match read_digits base l 0%N 0%nat with
  | (v, S _, []) => of_decimal false v 0
  | _ => NaN
  end.

(** [ExponentPart], optional: [e] or [E], an optional sign, one digit or
    more.  [None] when what is left is neither empty nor an exponent. *)
Definition read_exponent (l : list ascii) : option Z :=
  match l with
  | [] => Some 0
  | c :: l' =>
      if (Ascii.eqb c "e" || Ascii.eqb c "E")%bool then
        let '(neg, l'') :=
          match l' with
          | s :: t =>
              if Ascii.eqb s "-" then (true, t)
              else if Ascii.eqb s "+" then (false, t)
              else (false, l')
          | [] => (false, l')
          end in
        match read_digits 10 l'' 0%N 0%nat with
        | (v, S _, []) => Some (if neg then - Z.of_N v else Z.of_N v)
        | _ => None
        end
      else None
  end.

(** [StrUnsignedDecimalLiteral] with the sign already read. *)
Definition unsigned_decimal (neg : bool) (l : list ascii) : number :=
  if list_eq_dec ascii_dec l (list_ascii_of_string "Infinity")
  then S754_infinity neg
  else
    let '(ip, ilen, rest) := read_digits 10 l 0%N 0%nat in
    match rest with
    | c :: rest' =>
        if Ascii.eqb c "." then
          let '(m, flen, rest'') := read_digits 10 rest' ip 0%nat in
          match ilen, flen with
          | O, O => NaN
          | _, _ =>
              match read_exponent rest'' with
              | Some e => of_decimal neg m (e - Z.of_nat flen)
              | None => NaN
              end
          end
        else
          match ilen, read_exponent rest with
          | S _, Some e => of_decimal neg ip e
          | _, _ => NaN
          end
    | [] =>
        match ilen with
        | S _ => of_decimal neg ip 0
        | O => NaN
        end
    end.

(** [StringToNumber]: white space is trimmed; the empty string is [+0]; a
    decimal literal may carry a sign, a fraction and an exponent; [0x], [0o]
    and [0b] literals carry none; anything else is [NaN]. *)
Definition StringToNumber (l : list ascii) : number :=
  match trim l with
  | [] => zero
  | c :: t =>
      if Ascii.eqb c "-" then unsigned_decimal true t
      else if Ascii.eqb c "+" then unsigned_decimal false t
      else
        match t with
        | x :: t' =>
            if Ascii.eqb c "0" then
              if (Ascii.eqb x "x" || Ascii.eqb x "X")%bool then non_decimal 16 t'
              else if (Ascii.eqb x "o" || Ascii.eqb x "O")%bool then non_decimal 8 t'
              else if (Ascii.eqb x "b" || Ascii.eqb x "B")%bool then non_decimal 2 t'
              else unsigned_decimal false (c :: t)
            else unsigned_decimal false (c :: t)
        | [] => unsigned_decimal false (c :: t)
        end
  end.

(** [Number(s)] for a string [s]. *)
Definition Number (s : string) : number :=
  StringToNumber (list_ascii_of_string s).

(** [s.split(sep)] for a separator of one code unit and no limit: the
    segments between the separators, at least one. *)
Fixpoint split (sep : ascii) (s : string) : list string :=
  match s with
  | EmptyString => [EmptyString]
  | String c s' =>
      if Ascii.eqb c sep then EmptyString :: split sep s'
      else
        match split sep s' with
        | seg :: segs => String c seg :: segs
        | [] => [String c EmptyString]
        end
  end.

End JS.

(** ** The records of documents.json

    Every field the validator reads is a string; [url] and [contact] are
    optional and only displayed. *)
Module Doc.
Record t := {
  documentId : string;
  validationId : string;
  version : string;
  date : string;
  documentName : string;
  url : option string;
  contact : option string
}.
End Doc.

Definition DocumentRecord : Type := Doc.t.

(** What [validateDocument] ends in: the [show...State] call it makes.
    [showInvalidState(null)] would raise a TypeError on
    [latestDocument.validationId], which [init] catches and turns into
    [showErrorState]; that is [Failed]. *)
Inductive Display :=
| NoId                                      (* showGrayState('No validation ID provided', ...) *)
| NotFound                                  (* showGrayState('Document not found', ...) *)
| Latest (current : DocumentRecord)         (* showValidState() *)
| Outdated (current latest : DocumentRecord) (* showInvalidState(latestDocument) *)
| Failed.                                   (* showErrorState(...) *)

(** The fields of a [DocumentValidator] object. *)
Module Validator.
Record t := {
  documents : list DocumentRecord;
  validationId : option string;
  currentDocument : option DocumentRecord
}.
End Validator.

(** [Array.prototype.sort] with a comparator.  [SortCompare] reads a NaN
    from the comparator as [+0], and the sort is stable: an element moves
    in front of another only when the comparator says so.  For a
    consistent comparator that fixes the result; it is computed here by
    insertion from the right. *)
Module JSArray.
Section Sort.
Context {A : Type}.
(** The comparator's number, [None] for NaN. *)
Variable comparefn : A -> A -> option Z.

Definition SortCompare (x y : A) : Z :=
  match comparefn x y with
  | Some v => v
  | None => 0
  end.

Fixpoint insert (x : A) (l : list A) : list A :=
  match l with
  | [] => [x]
  | y :: l' => if SortCompare x y <=? 0 then x :: l else y :: insert x l'
  end.

Definition sort (l : list A) : list A := fold_right insert [] l.
End Sort.
End JSArray.

Section DocumentValidator.
(** [new Date(s)] read as a number: the time value in milliseconds, or
    [None] for an Invalid Date, whose time value is NaN.  What strings a
    host reads beyond the ISO format is its own business, so the parser
    is left open. *)
Variable Date_parse : string -> option Z.

(** [x >= y] on two dates: false as soon as one time value is NaN. *)
Definition date_ge (x y : option Z) : bool :=
  match x, y with
  | Some tx, Some ty => ty <=? tx
  | _, _ => false
  end.

(** [x - y] on two dates: NaN as soon as one time value is NaN.  Time
    values are integers a double holds exactly, and rounding their
    difference keeps its sign, which is all [sort] reads. *)
Definition date_sub (x y : option Z) : option Z :=
  match x, y with
  | Some tx, Some ty => Some (tx - ty)
  | _, _ => None
  end.

(** [doc.validationId === validationId], the right side a string or
    null. *)
Definition strict_eq (s : string) (v : option string) : bool :=
  match v with
  | Some s' => String.eqb s s'
  | None => false
  end.

(** [findDocumentByValidationId]: [find] gives the first match or
    undefined, and [|| null] turns undefined into null. *)
Definition findDocumentByValidationId
    (documents : list DocumentRecord) (validationId : option string)
  : option DocumentRecord :=
  find (fun doc => strict_eq doc.(Doc.validationId) validationId) documents.

(** [parts[i] || 0]: an index past the end reads undefined. *)
Definition part (parts : list JS.number) (i : nat) : JS.number :=
  match nth_error parts i with
  | Some x => JS.or_else x JS.zero
  | None => JS.zero
  end.

(** The [for] loop of [compareVersions], at index [i] with
    [maxLength - i] rounds to go. *)
Fixpoint compareVersions_loop (v1Parts v2Parts : list JS.number)
    (i togo : nat) : Z :=
  match togo with
  | O => 0
  | S togo' =>
      let v1Part := part v1Parts i in
      let v2Part := part v2Parts i in
      if JS.lt v1Part v2Part then -1
      else if JS.gt v1Part v2Part then 1
      else compareVersions_loop v1Parts v2Parts (S i) togo'
  end.

Definition compareVersions (version1 version2 : string) : Z :=
  let v1Parts := map JS.Number (JS.split "." version1) in
  let v2Parts := map JS.Number (JS.split "." version2) in
  let maxLength := Nat.max (List.length v1Parts) (List.length v2Parts) in
  compareVersions_loop v1Parts v2Parts 0 maxLength.

(** The comparator handed to [sort] in [getLatestDocumentVersion]. *)
Definition byVersionThenDate (a b : DocumentRecord) : option Z :=
  let versionCompare := compareVersions a.(Doc.version) b.(Doc.version) in
  if negb (versionCompare =? 0) then Some (- versionCompare)
  else date_sub (Date_parse b.(Doc.date)) (Date_parse a.(Doc.date)).

(** [filter] builds a new array, which [sort] then orders in place;
    [documents] itself is not touched. *)
Definition getLatestDocumentVersion
    (documents : list DocumentRecord) (documentId : string)
  : option DocumentRecord :=
  let documentVersions :=
    JSArray.sort byVersionThenDate
      (filter (fun doc => String.eqb doc.(Doc.documentId) documentId) documents) in
  match documentVersions with
  | first :: _ => Some first
  | [] => None
  end.

Definition isLatestVersion
    (documents : list DocumentRecord) (document : DocumentRecord) : bool :=
  match getLatestDocumentVersion documents document.(Doc.documentId) with
  | None => false
  | Some latest =>
      let versionCompare :=
        compareVersions document.(Doc.version) latest.(Doc.version) in
      if negb (versionCompare =? 0) then 0 <? versionCompare
      else date_ge (Date_parse document.(Doc.date)) (Date_parse latest.(Doc.date))
  end.

(** [!this.validationId]: null and the empty string are falsy. *)
Definition no_id (v : option string) : bool :=
  match v with
  | None => true
  | Some s => String.eqb s ""
  end.

(** [validateDocument]: the object after the call, and what is shown. *)
Definition validateDocument (this : Validator.t) : Validator.t * Display :=
  if no_id this.(Validator.validationId) then (this, NoId)
  else
    let found :=
      findDocumentByValidationId this.(Validator.documents)
        this.(Validator.validationId) in
    let this' :=
      {| Validator.documents := this.(Validator.documents);
         Validator.validationId := this.(Validator.validationId);
         Validator.currentDocument := found |} in
    match found with
    | None => (this', NotFound)
    | Some current =>
        if isLatestVersion this.(Validator.documents) current
        then (this', Latest current)
        else
          match getLatestDocumentVersion this.(Validator.documents)
                  current.(Doc.documentId) with
          | Some latestDocument => (this', Outdated current latestDocument)
          | None => (this', Failed)
          end
    end.

(** The page's whole run on a registry and the [id] of the URL:
    [getValidationIdFromUrl] is [urlParams.get('id') || null]. *)
Definition resolve (records : list DocumentRecord) (id : option string)
  : Display :=
  snd (validateDocument
         {| Validator.documents := records;
            Validator.validationId := if no_id id then None else id;
            Validator.currentDocument := None |}).
End DocumentValidator.

(** ** Arrays as objects

    An array is an object of the heap, named by its address.  [filter]
    allocates a new array and leaves the one it reads alone; [sort]
    orders the array it is called on in place and returns that same
    array. *)
Module Store.

Definition address := nat.
Definition heap := list (list DocumentRecord).

Definition read (h : heap) (a : address) : list DocumentRecord := nth a h [].

Definition write (h : heap) (a : address) (v : list DocumentRecord) : heap :=
  firstn a h ++ v :: skipn (S a) h.

Definition alloc (h : heap) (v : list DocumentRecord) : heap * address :=
  (h ++ [v], List.length h).

Definition filter (f : DocumentRecord -> bool) (h : heap) (a : address)
  : heap * address :=
  alloc h (List.filter f (read h a)).

Definition sort (comparefn : DocumentRecord -> DocumentRecord -> option Z)
    (h : heap) (a : address) : heap * address :=
  (write h a (JSArray.sort comparefn (read h a)), a).

(** The validator object: [documents] holds the address of the array. *)
Record object := {
  documents : address;
  validationId : option string;
  currentDocument : option DocumentRecord
}.

Section Methods.
Variable Date_parse : string -> option Z.

Definition findDocumentByValidationId (h : heap) (this : object)
    (validationId : option string) : option DocumentRecord :=
  find (fun doc => strict_eq doc.(Doc.validationId) validationId)
    (read h this.(documents)).

Definition getLatestDocumentVersion (h : heap) (this : object)
    (documentId : string) : heap * option DocumentRecord :=
  let '(h1, filtered) :=
    filter (fun doc => String.eqb doc.(Doc.documentId) documentId)
      h this.(documents) in
  let '(h2, documentVersions) :=
    sort (byVersionThenDate Date_parse) h1 filtered in
  (h2, match read h2 documentVersions with
       | first :: _ => Some first
       | [] => None
       end).

Definition isLatestVersion (h : heap) (this : object)
    (document : DocumentRecord) : heap * bool :=
  let '(h1, latest) :=
    getLatestDocumentVersion h this document.(Doc.documentId) in
  (h1,
   match latest with
   | None => false
   | Some latest =>
       let versionCompare :=
         compareVersions document.(Doc.version) latest.(Doc.version) in
       if negb (versionCompare =? 0) then 0 <? versionCompare
       else date_ge (Date_parse document.(Doc.date))
              (Date_parse latest.(Doc.date))
   end).

Definition validateDocument (h : heap) (this : object)
  : heap * object * Display :=
  if no_id this.(validationId) then (h, this, NoId)
  else
    let found := findDocumentByValidationId h this this.(validationId) in
    let this' :=
      {| documents := this.(documents);
         validationId := this.(validationId);
         currentDocument := found |} in
    match found with
    | None => (h, this', NotFound)
    | Some current =>
        let '(h1, isLatest) := isLatestVersion h this' current in
        if isLatest then (h1, this', Latest current)
        else
          let '(h2, latestDocument) :=
            getLatestDocumentVersion h1 this' current.(Doc.documentId) in
          match latestDocument with
          | Some latestDocument => (h2, this', Outdated current latestDocument)
          | None => (h2, this', Failed)
          end
    end.
End Methods.

(** The object as the array-free model has it. *)
Definition pure (h : heap) (this : object) : Validator.t :=
  {| Validator.documents := read h this.(documents);
     Validator.validationId := this.(validationId);
     Validator.currentDocument := this.(currentDocument) |}.

(** [h'] has every array of [h], unchanged, and maybe more. *)
Definition extends (h h' : heap) : Prop :=
  forall a, (a < List.length h)%nat ->
    (a < List.length h')%nat /\ read h' a = read h a.

End Store.

(** ** A host for the examples

    [ISODate.parse] reads the date-time string format every host must
    read (four-digit years; [YYYY], [YYYY-MM] or [YYYY-MM-DD], then
    optionally [THH:mm], [:ss], [.sss] and [Z] or an offset), with UTC as
    local time, and takes every other string for an invalid date.  The
    theorems hold for every host; this one instantiates them. *)
Module ISODate.

Definition digit (c : ascii) : option Z :=
  let n := Z.of_N (N_of_ascii c) in
  if (48 <=? n) && (n <=? 57) then Some (n - 48) else None.

Fixpoint read_fixed (k : nat) (l : list ascii) (acc : Z)
  : option (Z * list ascii) :=
  match k with
  | O => Some (acc, l)
  | S k' =>
      match l with
      | c :: l' =>
          match digit c with
          | Some d => read_fixed k' l' (acc * 10 + d)
          | None => None
          end
      | [] => None
      end
  end.

Definition is_leap (y : Z) : bool :=
  (y mod 4 =? 0) && (negb (y mod 100 =? 0) || (y mod 400 =? 0)).

Definition days_in_month (y m : Z) : Z :=
  match m with
  | 1 | 3 | 5 | 7 | 8 | 10 | 12 => 31
  | 4 | 6 | 9 | 11 => 30
  | 2 => if is_leap y then 29 else 28
  | _ => 0
  end.

(** Days from 1970-01-01 to the given day of the proleptic Gregorian
    calendar. *)
Definition days_from_civil (y m d : Z) : Z :=
  let y' := if m <=? 2 then y - 1 else y in
  let era := y' / 400 in
  let yoe := y' - era * 400 in
  let doy := (153 * (if 2 <? m then m - 3 else m + 9) + 2) / 5 + d - 1 in
  let doe := yoe * 365 + yoe / 4 - yoe / 100 + doy in
  era * 146097 + doe - 719468.

(** [-MM] and [-DD], each optional; what is missing counts as 01. *)
Definition read_month_day (l : list ascii) : option (Z * Z * list ascii) :=
  match l with
  | "-"%char :: l1 =>
      match read_fixed 2 l1 0 with
      | Some (m, "-"%char :: l2) =>
          match read_fixed 2 l2 0 with
          | Some (d, l3) => Some (m, d, l3)
          | None => None
          end
      | Some (m, l2) => Some (m, 1, l2)
      | None => None
      end
  | _ => Some (1, 1, l)
  end.

(** [Z] or [+HH:mm] or [-HH:mm], in milliseconds to take off; nothing
    is local time, here UTC. *)
Definition read_offset (l : list ascii) : option Z :=
  match l with
  | [] => Some 0
  | ["Z"%char] => Some 0
  | s :: l1 =>
      if (Ascii.eqb s "+" || Ascii.eqb s "-")%bool then
        match read_fixed 2 l1 0 with
        | Some (h, ":"%char :: l2) =>
            match read_fixed 2 l2 0 with
            | Some (m, []) =>
                if (h <=? 23) && (m <=? 59) then
                  let off := h * 3600000 + m * 60000 in
                  Some (if Ascii.eqb s "-" then - off else off)
                else None
            | _ => None
            end
        | _ => None
        end
      else None
  end.

(** [:ss] and [.sss], each optional. *)
Definition read_seconds (l : list ascii) : option (Z * Z * list ascii) :=
  match l with
  | ":"%char :: l1 =>
      match read_fixed 2 l1 0 with
      | Some (s, "."%char :: l2) =>
          match read_fixed 3 l2 0 with
          | Some (ms, l3) => Some (s, ms, l3)
          | None => None
          end
      | Some (s, l2) => Some (s, 0, l2)
      | None => None
      end
  | _ => Some (0, 0, l)
  end.

(** The time of day in milliseconds, less the offset. *)
Definition read_time (l : list ascii) : option Z :=
  match l with
  | [] => Some 0
  | "T"%char :: l1 =>
      match read_fixed 2 l1 0 with
      | Some (h, ":"%char :: l2) =>
          match read_fixed 2 l2 0 with
          | Some (m, l3) =>
              match read_seconds l3 with
              | Some (s, ms, l4) =>
                  match read_offset l4 with
                  | Some off =>
                      if ((h <=? 23) && (m <=? 59) && (s <=? 59))
                         || ((h =? 24) && (m =? 0) && (s =? 0) && (ms =? 0))
                      then Some (h * 3600000 + m * 60000 + s * 1000 + ms - off)
                      else None
                  | None => None
                  end
              | None => None
              end
          | None => None
          end
      | _ => None
      end
  | _ => None
  end.

Definition parse (s : string) : option Z :=
  match read_fixed 4 (list_ascii_of_string s) 0 with
  | Some (y, l1) =>
      match read_month_day l1 with
      | Some (m, d, l2) =>
          if (1 <=? m) && (m <=? 12) && (1 <=? d) && (d <=? days_in_month y m)
          then
            match read_time l2 with
            | Some t => Some (days_from_civil y m d * 86400000 + t)
            | None => None
            end
          else None
      | None => None
      end
  | None => None
  end.

End ISODate.

(** ** The comparison as the specification words it

    Split on the dot, read each segment, pad the shorter sequence with
    zeros to the longer one's length, compare pairwise from the first
    segment and answer with the sign of the first unequal pair.  The
    reading of a segment, the zero and the order are left open, so that
    the same words can be read over numbers and over integers. *)
Section Padded.
Context {A : Type}.
Variable ltb : A -> A -> bool.
Variable zero : A.
Variable read : string -> A.

Definition pad (n : nat) (l : list A) : list A :=
  l ++ repeat zero (n - List.length l).

Fixpoint first_unequal (l1 l2 : list A) : Z :=
  match l1, l2 with
  | x :: l1', y :: l2' =>
      if ltb x y then -1
      else if ltb y x then 1
      else first_unequal l1' l2'
  | _, _ => 0
  end.

Definition compare_padded (a b : string) : Z :=
  let s1 := map read (JS.split "." a) in
  let s2 := map read (JS.split "." b) in
  let n := Nat.max (List.length s1) (List.length s2) in
  first_unequal (pad n s1) (pad n s2).
End Padded.

(** What a segment counts for in [compareVersions]: its Number, and 0
    when that is NaN (or a zero). *)
Definition segment_value (s : string) : JS.number :=
  JS.or_else (JS.Number s) JS.zero.

(** The segments read as integers, in the specification's words: a
    segment of decimal digits is its value, every other segment is 0. *)
Definition segment_int (s : string) : Z :=
  match JS.read_digits 10 (list_ascii_of_string s) 0%N 0%nat with
  | (v, S _, []) => Z.of_N v
  | _ => 0
  end.

(** The segments on which the two readings agree: decimal digits with a
    value below 2^53, which a Number holds exactly, and segments whose
    Number is NaN or a zero. *)
Definition plain (s : string) : bool :=
  match JS.read_digits 10 (list_ascii_of_string s) 0%N 0%nat with
  | (v, S _, []) => (v <? 2 ^ 53)%N
  | _ => negb (JS.truthy (JS.Number s))
  end.

(** The order of [sort]'s comparator on records with a date: by version,
    then by time value. *)
Section Order.
Variable Date_parse : string -> option Z.

Definition below (r m : DocumentRecord) : Prop :=
  compareVersions r.(Doc.version) m.(Doc.version) = -1
  \/ (compareVersions r.(Doc.version) m.(Doc.version) = 0
      /\ exists tr tm,
           Date_parse r.(Doc.date) = Some tr
           /\ Date_parse m.(Doc.date) = Some tm
           /\ tr < tm).
End Order.

(** The records of the examples. *)
Definition mkDoc (documentId validationId version date : string)
  : DocumentRecord :=
  {| Doc.documentId := documentId;
     Doc.validationId := validationId;
     Doc.version := version;
     Doc.date := date;
     Doc.documentName := "";
     Doc.url := None;
     Doc.contact := None |}.

Definition docA : DocumentRecord := mkDoc "D1" "A" "1.0.0" "2024-01-01".
Definition docB : DocumentRecord := mkDoc "D1" "B" "2.0.0" "2024-02-01".

(** ** Strings of the page

    The string methods the loader and the renderer call. *)
Module JSString.

(** [s.startsWith(search)]. *)
Fixpoint startsWith (search s : string) : bool :=
  match search with
  | EmptyString => true
  | String a search' =>
      match s with
      | String c s' => Ascii.eqb a c && startsWith search' s'
      | EmptyString => false
      end
  end.

(** [s.includes(search)]. *)
Fixpoint includes (search s : string) : bool :=
  startsWith search s
  || match s with
     | String _ s' => includes search s'
     | EmptyString => false
     end.

(** [s.lastIndexOf(search)]: the last index where [search] starts, -1
    when there is none. *)
Fixpoint lastIndexOf (search s : string) : Z :=
  match s with
  | EmptyString => if startsWith search "" then 0 else -1
  | String _ s' =>
      let later := lastIndexOf search s' in
      if 0 <=? later then later + 1
      else if startsWith search s then 0 else -1
  end.

(** [s.substring(start, end)]: both ends are clamped to the string and
    swapped when out of order. *)
Definition substring (start finish : Z) (s : string) : string :=
  let len := Z.of_nat (String.length s) in
  let a := Z.min (Z.max start 0) len in
  let b := Z.min (Z.max finish 0) len in
  String.substring (Z.to_nat (Z.min a b)) (Z.to_nat (Z.max a b - Z.min a b)) s.

(** A natural number in a template literal: its decimal digits. *)
Definition of_number (n : N) : string := NilZero.string_of_uint (N.to_uint n).

End JSString.

(** ** Loading the documents

    [fetch] and [response.json()] are the host's; what the loader sees
    of them is whether they settle and with what. *)
Module Loader.

(** A thrown error: whether it is a TypeError, and its message. *)
Record JsError := { isTypeError : bool; message : string }.

(** [new Error(message)]. *)
Definition Error (message : string) : JsError :=
  {| isTypeError := false; message := message |}.

(** A JSON array, which [Array.isArray] lets through whatever it holds:
    records whose fields are strings, as the data model has them, or
    anything else (an element that is no object, a field that is missing
    or no string).  On an array of the second kind [validateDocument]
    can throw where it cannot on records, as [compareVersions] does on a
    version that is no string; what it does there is not followed here
    and comes with the array: for each id, the error it throws or the
    display it ends in. *)
Inductive JsonArray :=
| Records (documents : list DocumentRecord)
| Other (validate : option string -> JsError + Display).

(** What [response.json()] settles with: a rejection, a value that is no
    array, or an array. *)
Inductive Body :=
| Unreadable (e : JsError)
| NotArray
| Array (jsonData : JsonArray).

(** What [fetch] settles with: a rejection, or a response with its
    status and body. *)
Inductive Fetched :=
| Rejected (e : JsError)
| Response (status : N) (json : Body).

(** [response.ok]: the status is in the range 200 to 299. *)
Definition ok (status : N) : bool := ((200 <=? status) && (status <=? 299))%N.

(** What the page ends with: one of the displays of [validateDocument],
    or the error state with its message. *)
Inductive Page :=
| Shown (display : Display)
| ErrorState (message : string).

(** [jsonPath] of [loadDocuments]: the directory of the page, then
    documents.json. *)
Definition documentsPath (pathname : string) : string :=
  let basePath :=
    if negb (String.eqb pathname "") && JSString.includes "/" pathname then
      let lastSlashIndex := JSString.lastIndexOf "/" pathname in
      if 0 <=? lastSlashIndex
      then JSString.substring 0 (lastSlashIndex + 1) pathname
      else ""%string
    else ""%string in
  (basePath ++ "documents.json")%string.

(** The error message [init] shows for a caught error. *)
Definition errorMessage (message : string) : string :=
  if JSString.includes "HTTP error" message then
    ("Failed to load documents database. HTTP Status: " ++ message)%string
  else if JSString.includes "Failed to fetch" message
          || JSString.includes "NetworkError" message then
    "Unable to load documents database. Please ensure you are accessing this page through a web server (not file://)."%string
  else if JSString.includes "JSON" message then
    "Invalid documents database format. Please check documents.json syntax."%string
  else if negb (String.eqb message "") then ("Error: " ++ message)%string
  else "Failed to load validation system"%string.

Section Page.
Variable Date_parse : string -> option Z.
(** [window.location.protocol] and [window.location.pathname]. *)
Variable protocol pathname : string.
Variable fetch : string -> Fetched.
(** The message of the host's TypeError for a property read on null. *)
Variable null_message : string.

(** [loadDocuments]: the array it leaves in [this.documents], or the
    error it throws. *)
Definition loadDocuments : JsError + JsonArray :=
  let jsonPath := documentsPath pathname in
  let attempt :=
    match fetch jsonPath with
    | Rejected e => inl e
    | Response status json =>
        if negb (ok status) then
          inl (Error ("HTTP error! status: " ++ JSString.of_number status))
        else
          match json with
          | Unreadable e => inl e
          | NotArray =>
              inl (Error "Invalid JSON format: documents.json must be an array")
          | Array jsonData => inr jsonData
          end
    end in
  match attempt with
  | inr jsonData => inr jsonData
  | inl error =>
      if error.(isTypeError)
         && (JSString.includes "fetch" error.(message)
             || JSString.includes "Failed" error.(message))
      then
        if String.eqb protocol "file:" then
          inl (Error "Cannot load documents when opening file directly. Please use a web server (e.g., http://localhost:3033).")
        else
          inl (Error ("Failed to fetch documents.json from path: " ++ jsonPath
                      ++ ". Make sure the file exists and is accessible."))
      else inl error
  end.

(** The end of [init] when [validateDocument] ends in a display: the
    display, or the error state when the display is the throw of
    [showInvalidState] on null. *)
Definition show (display : Display) : Page :=
  match display with
  | Failed => ErrorState (errorMessage null_message)
  | shown => Shown shown
  end.

(** [init], with [id] what [urlParams.get('id')] gives. *)
Definition init (id : option string) : Page :=
  match loadDocuments with
  | inl error => ErrorState (errorMessage error.(message))
  | inr (Records documents) => show (resolve Date_parse documents id)
  | inr (Other validate) =>
      match validate id with
      | inl error => ErrorState (errorMessage error.(message))
      | inr display => show display
      end
  end.
End Page.

End Loader.

(** ** Regular expressions of the page

    The two patterns of [linkifyText], both with the [i] flag and
    neither with the [u] flag, on code units below 256. *)
Module RegExp.

(** [Canonicalize] on what can meet a letter of the patterns: a to z are
    folded to A to Z; a code unit from 128 on is never folded to one
    below 128. *)
Definition upper (c : ascii) : ascii :=
  let n := N_of_ascii c in
  if ((97 <=? n) && (n <=? 122))%N then ascii_of_N (n - 32) else c.

(** The characters of [pattern] at the start of [s], letters in either
    case: what is left of [s] after them. *)
Fixpoint literal (pattern s : string) : option string :=
  match pattern with
  | EmptyString => Some s
  | String a pattern' =>
      match s with
      | String c s' =>
          if Ascii.eqb (upper a) (upper c) then literal pattern' s' else None
      | EmptyString => None
      end
  end.

(** [[^\s]+] at the start of [s], greedy: the number of characters up to
    the first white space, which the pattern needs not to be 0. *)
Fixpoint run (s : string) : nat :=
  match s with
  | String c s' => if JS.is_whitespace c then O else S (run s')
  | EmptyString => O
  end.

(** [https?:\/\/] at the start of [s]: with the [s] first, then
    without. *)
Definition scheme (s : string) : option string :=
  match literal "http" s with
  | Some r =>
      match
        match literal "s" r with
        | Some r' => literal "://" r'
        | None => None
        end
      with
      | Some rest => Some rest
      | None => literal "://" r
      end
  | None => None
  end.

(** [/^(https?:\/\/|www\.)/i.test(s)]. *)
Definition urlTest (s : string) : bool :=
  match scheme s with
  | Some _ => true
  | None =>
      match literal "www." s with
      | Some _ => true
      | None => false
      end
  end.

(** A prefix and then [[^\s]+]: the length of the match. *)
Definition then_run (s : string) (prefix : option string) : option nat :=
  match prefix with
  | Some r =>
      match run r with
      | O => None
      | n => Some (String.length s - String.length r + n)%nat
      end
  | None => None
  end.

(** [/(https?:\/\/[^\s]+|www\.[^\s]+)/gi] at the start of [s]: the
    length of the match. *)
Definition urlPattern (s : string) : option nat :=
  match then_run s (scheme s) with
  | Some n => Some n
  | None => then_run s (literal "www." s)
  end.

(** The loop of [text.split(urlPattern)] from position [q] on: [text] is
    what has been read since the end [p] of the last match, and [skip]
    is how far [q] is from that end when a match has just been
    found.  A match puts [text] and then its one group in the array,
    and the end of the string puts the [text] left. *)
Fixpoint split_loop (s text : string) (skip : nat) : list string :=
  match s with
  | EmptyString => [text]
  | String c s' =>
      match skip with
      | S skip' => split_loop s' text skip'
      | O =>
          match urlPattern s with
          | Some n =>
              text :: String.substring 0 n s
                   :: split_loop s' EmptyString (n - 1)
          | None => split_loop s' (text ++ String c EmptyString) O
          end
      end
  end.

Definition split (s : string) : list string := split_loop s EmptyString O.

End RegExp.

(** ** Text to HTML *)
Module Html.

(** How [innerHTML] writes one character of a text node. *)
Definition escape_char (c : ascii) : string :=
  match N_of_ascii c with
  | 38%N => "&amp;"
  | 60%N => "&lt;"
  | 62%N => "&gt;"
  | 160%N => "&nbsp;"
  | _ => String c EmptyString
  end%string.

Fixpoint escape (s : string) : string :=
  match s with
  | EmptyString => EmptyString
  | String c s' => (escape_char c ++ escape s')%string
  end.

(** [escapeHtml]: the text as the [innerHTML] of an element that has it
    as its [textContent]. *)
Definition escapeHtml (text : option string) : string :=
  match text with
  | None => EmptyString
  | Some s => escape s
  end.

(** The double quote of the template of a link. *)
Definition quote : string := String "034" EmptyString.

(** The template of [linkifyText] for a link. *)
Definition anchor (escapedUrl displayText : string) : string :=
  ("<a href=" ++ quote ++ escapedUrl ++ quote
   ++ " class=" ++ quote ++ "contact-link" ++ quote
   ++ " target=" ++ quote ++ "_blank" ++ quote
   ++ " rel=" ++ quote ++ "noopener noreferrer" ++ quote
   ++ ">" ++ displayText ++ "</a>")%string.

(** What [linkifyText] makes of one part of the split. *)
Definition linkifyPart (part : string) : string :=
  if RegExp.urlTest part then
    let url :=
      if JSString.startsWith "www." part then ("https://" ++ part)%string
      else part in
    let escapedUrl := escapeHtml (Some url) in
    let displayText := escapeHtml (Some part) in
    anchor escapedUrl displayText
  else escapeHtml (Some part).

Definition linkifyText (text : option string) : string :=
  match text with
  | None | Some EmptyString => EmptyString
  | Some s => String.concat "" (map linkifyPart (RegExp.split s))
  end.

End Html.

(** ** Vocabulary of the proofs *)

(** Three-way comparison; a NaN compares as equal, which never shows
    below, where no NaN is compared. *)
Definition cmp (x y : JS.number) : comparison :=
  match SFcompare x y with
  | Some c => c
  | None => Eq
  end.

(** Where a number sits: class, then exponent, then mantissa. *)
Definition key (x : JS.number) : Z * Z * Z :=
  match x with
  | S754_nan => (0, 0, 0)
  | S754_zero _ => (0, 0, 0)
  | S754_infinity true => (-2, 0, 0)
  | S754_infinity false => (2, 0, 0)
  | S754_finite true m e => (-1, - e, Z.neg m)
  | S754_finite false m e => (1, e, Z.pos m)
  end.

Definition lex3 (k1 k2 : Z * Z * Z) : comparison :=
  let '(a1, b1, c1) := k1 in
  let '(a2, b2, c2) := k2 in
  match a1 ?= a2 with
  | Eq => match b1 ?= b2 with
          | Eq => c1 ?= c2
          | r => r
          end
  | r => r
  end.

Definition lex3_lt (k1 k2 : Z * Z * Z) : Prop :=
  let '(a1, b1, c1) := k1 in
  let '(a2, b2, c2) := k2 in
  a1 < a2 \/ (a1 = a2 /\ (b1 < b2 \/ (b1 = b2 /\ c1 < c2))).

(** The segments of a version as [compareVersions] maps them. *)
Definition parts (v : string) : list JS.number :=
  map JS.Number (JS.split "." v).

(** The first element after [x] has been put in front of an array
    whose sorted form starts with [acc]. *)
Definition pick {A : Type} (comparefn : A -> A -> option Z)
    (x : A) (acc : option A) : option A :=
  match acc with
  | None => Some x
  | Some y => if JSArray.SortCompare comparefn x y <=? 0 then Some x else Some y
  end.

(** [sort] puts [x] in front of [y]. *)
Definition before (Date_parse : string -> option Z) (x y : DocumentRecord)
  : bool :=
  JSArray.SortCompare (byVersionThenDate Date_parse) x y <=? 0.

(** The records [filter] keeps. *)
Definition lineage (documents : list DocumentRecord) (id : string)
  : list DocumentRecord :=
  filter (fun doc => String.eqb doc.(Doc.documentId) id) documents.

(** [sort] may leave [x] in front of [y]. *)
Definition not_after {A : Type} (comparefn : A -> A -> option Z) (x y : A)
  : Prop :=
  JSArray.SortCompare comparefn x y <= 0.

(** The comparator takes [y] for equal to [k]. *)
Definition same {A : Type} (comparefn : A -> A -> option Z) (k y : A)
  : bool :=
  JSArray.SortCompare comparefn k y =? 0.

(** The host reads the date of the record. *)
Definition dated (Date_parse : string -> option Z) (r : DocumentRecord)
  : Prop :=
  Date_parse r.(Doc.date) <> None.

(** [x || 0]. *)
Definition or_zero (x : JS.number) : JS.number := JS.or_else x JS.zero.

(** The Number of a natural number. *)
Definition of_int (n : N) : JS.number := JS.of_decimal false n 0.

(** The mantissa of a positive integer below 2^53, shifted to 53 bits. *)
Definition normal (p : positive) : positive :=
  match (53 - Z.pos (digits2_pos p))%Z with
  | Z.pos k => Pos.iter xO p k
  | _ => p
  end.

(** A number and the integer it stands for. *)
Definition stands_for (x : JS.number) (z : Z) : Prop :=
  exists n, (n < 2 ^ 53)%N /\ x = of_int n /\ z = Z.of_N n.

(** Three versions of one document: two share version 1.0 and differ in
    their dates, the third has version 2.0 and the oldest date. *)
Definition tie_early : DocumentRecord := mkDoc "D1" "A" "1.0" "2024-01-01".
Definition tie_late : DocumentRecord := mkDoc "D1" "B" "1.0" "2024-02-01".
Definition newer_version : DocumentRecord := mkDoc "D1" "C" "2.0" "2023-01-01".

(** The record of the counterexample to C7: its validation id is the
    empty string. *)
Definition unnamed_doc : DocumentRecord := mkDoc "D1" "" "1.0.0" "2024-01-01".

(** The record of the counterexample to C6: the greatest version of its
    lineage, with a date that is no date. *)
Definition undated_latest : DocumentRecord := mkDoc "D1" "B" "2.0" "soon".

(** A heap with the example records, and an object that asks for [id]. *)
Definition example_heap : Store.heap := [[docA; docB]].
Definition example_object (id : string) : Store.object :=
  {| Store.documents := 0%nat;
     Store.validationId := Some id;
     Store.currentDocument := None |}.

(** No dot in the string: [split] leaves it whole. *)
Fixpoint dot_free (s : string) : bool :=
  match s with
  | EmptyString => true
  | String c s' => negb (Ascii.eqb c ".") && dot_free s'
  end.

(** A record whose date is no date. *)
Definition undated_doc : DocumentRecord := mkDoc "D1" "A" "1.0.0" "soon".

(** No slash in the string. *)
Fixpoint slash_free (s : string) : bool :=
  match s with
  | EmptyString => true
  | String c s' => negb (Ascii.eqb "/" c) && slash_free s'
  end.

(** A host where every request is answered with status 404. *)
Definition not_found_host (path : string) : Loader.Fetched :=
  Loader.Response 404 Loader.NotArray.

(** A host that serves the example records. *)
Definition example_host (path : string) : Loader.Fetched :=
  if String.eqb path "/document/documents.json"
  then Loader.Response 200 (Loader.Array (Loader.Records [docA; docB]))
  else Loader.Response 404 Loader.NotArray.

(** The pattern matches at no position of the string. *)
Fixpoint match_free (s : string) : bool :=
  match RegExp.urlPattern s with
  | Some _ => false
  | None =>
      match s with
      | String _ s' => match_free s'
      | EmptyString => true
      end
  end.

(** At no position of the string does a URL start, as [urlTest] reads
    one. *)
Fixpoint link_free (s : string) : bool :=
  negb (RegExp.urlTest s)
  && match s with
     | String _ s' => link_free s'
     | EmptyString => true
     end.

(** The string is empty or ends in white space. *)
Fixpoint spaced (s : string) : bool :=
  match s with
  | EmptyString => true
  | String c EmptyString => JS.is_whitespace c
  | String _ s' => spaced s'
  end.

(** No character of the pattern is white space, in either case. *)
Fixpoint solid (pattern : string) : bool :=
  match pattern with
  | EmptyString => true
  | String a pattern' =>
      negb (JS.is_whitespace (RegExp.upper a)) && solid pattern'
  end.

(** The string without its first [n] characters. *)
Fixpoint drop (n : nat) (s : string) : string :=
  match n, s with
  | S n', String _ s' => drop n' s'
  | _, _ => s
  end.

(** The no-break space. *)
Definition nbsp : string := String "160" EmptyString.

(** * Theorems *)

(** ** The order on numbers *)
Module NumberOrder.

Lemma lex3_Lt k1 k2 : lex3 k1 k2 = Lt <-> lex3_lt k1 k2.
Proof.
  destruct k1 as [[a1 b1] c1], k2 as [[a2 b2] c2]; simpl.
  destruct (Z.compare_spec a1 a2), (Z.compare_spec b1 b2),
    (Z.compare_spec c1 c2); split; intros; try discriminate;
    try reflexivity; lia.
Qed.

Lemma lex3_Gt k1 k2 : lex3 k1 k2 = Gt <-> lex3_lt k2 k1.
Proof.
  destruct k1 as [[a1 b1] c1], k2 as [[a2 b2] c2]; simpl.
  destruct (Z.compare_spec a1 a2), (Z.compare_spec b1 b2),
    (Z.compare_spec c1 c2); split; intros; try discriminate;
    try reflexivity; lia.
Qed.

Lemma lex3_Eq k1 k2 : lex3 k1 k2 = Eq <-> k1 = k2.
Proof.
  destruct k1 as [[a1 b1] c1], k2 as [[a2 b2] c2]; simpl.
  destruct (Z.compare_spec a1 a2), (Z.compare_spec b1 b2),
    (Z.compare_spec c1 c2); split; intros H'; try discriminate;
    try reflexivity; try (injection H'; intros; lia).
  subst; reflexivity.
Qed.

Lemma cmp_key x y :
  x <> S754_nan -> y <> S754_nan -> cmp x y = lex3 (key x) (key y).
Proof.
  intros Hx Hy. unfold cmp.
  destruct x as [sx|sx| |sx mx ex], y as [sy|sy| |sy my ey];
    try congruence;
    try destruct sx; try destruct sy; simpl; try reflexivity.
  rewrite Z.compare_opp.
  destruct (Z.compare_spec ey ex), (Z.compare_spec ex ey);
    try lia; reflexivity.
Qed.

Lemma cmp_opp x y : cmp y x = CompOpp (cmp x y).
Proof.
  unfold cmp.
  destruct x as [sx|sx| |sx mx ex], y as [sy|sy| |sy my ey];
    try destruct sx; try destruct sy; simpl; try reflexivity.
  - rewrite (Z.compare_antisym ey ex).
    destruct (ey ?= ex); simpl; try reflexivity.
    change (Pos.compare_cont Eq my mx) with (Pos.compare my mx).
    change (Pos.compare_cont Eq mx my) with (Pos.compare mx my).
    rewrite (Pos.compare_antisym my mx), CompOpp_involutive. reflexivity.
  - rewrite (Z.compare_antisym ey ex).
    destruct (ey ?= ex); simpl; try reflexivity.
    change (Pos.compare_cont Eq my mx) with (Pos.compare my mx).
    change (Pos.compare_cont Eq mx my) with (Pos.compare mx my).
    apply Pos.compare_antisym.
Qed.

Lemma lt_cmp x y : JS.lt x y = true <-> cmp x y = Lt.
Proof.
  unfold JS.lt, SFltb, cmp.
  destruct (SFcompare x y) as [[]|]; split; congruence.
Qed.

Lemma gt_cmp x y : JS.gt x y = true <-> cmp x y = Gt.
Proof.
  unfold JS.gt. rewrite lt_cmp, cmp_opp.
  destruct (cmp x y); simpl; split; congruence.
Qed.

Lemma cmp_refl x : cmp x x = Eq.
Proof.
  pose proof (cmp_opp x x) as H. destruct (cmp x x); simpl in H; congruence.
Qed.

(** The composition of two comparisons, where it is determined. *)
Lemma cmp_trans x y z c :
  x <> S754_nan -> y <> S754_nan -> z <> S754_nan ->
  (cmp x y = c \/ cmp x y = Eq) -> (cmp y z = c \/ cmp y z = Eq) ->
  (cmp x y = c \/ cmp y z = c) ->
  cmp x z = c.
Proof.
  intros Hx Hy Hz.
  rewrite (cmp_key x y), (cmp_key y z), (cmp_key x z) by assumption.
  destruct c; rewrite ?lex3_Lt, ?lex3_Gt, ?lex3_Eq;
    destruct (key x) as [[a1 b1] c1], (key y) as [[a2 b2] c2],
      (key z) as [[a3 b3] c3]; unfold lex3_lt;
    intros H1 H2 H3.
  - destruct H1 as [H1|H1], H2 as [H2|H2]; congruence.
  - assert (E1 : (a1, b1, c1) = (a2, b2, c2) -> a1 = a2 /\ b1 = b2 /\ c1 = c2)
      by (intros E; injection E; auto).
    assert (E2 : (a2, b2, c2) = (a3, b3, c3) -> a2 = a3 /\ b2 = b3 /\ c2 = c3)
      by (intros E; injection E; auto).
    destruct H1 as [H1|H1], H2 as [H2|H2], H3 as [H3|H3];
      try apply E1 in H1; try apply E2 in H2; lia.
  - assert (E1 : (a1, b1, c1) = (a2, b2, c2) -> a1 = a2 /\ b1 = b2 /\ c1 = c2)
      by (intros E; injection E; auto).
    assert (E2 : (a2, b2, c2) = (a3, b3, c3) -> a2 = a3 /\ b2 = b3 /\ c2 = c3)
      by (intros E; injection E; auto).
    destruct H1 as [H1|H1], H2 as [H2|H2], H3 as [H3|H3];
      try apply E1 in H1; try apply E2 in H2; lia.
Qed.

End NumberOrder.

(** ** The comparison loop *)
Module Loop.
Import NumberOrder.

Lemma or_else_not_nan x : JS.or_else x JS.zero <> S754_nan.
Proof. destruct x; unfold JS.or_else, JS.zero; simpl; discriminate. Qed.

Lemma part_not_nan parts i : part parts i <> S754_nan.
Proof.
  unfold part. destruct (nth_error parts i).
  - apply or_else_not_nan.
  - discriminate.
Qed.

Lemma part_past parts i : (List.length parts <= i)%nat -> part parts i = JS.zero.
Proof.
  intros H. unfold part.
  apply nth_error_None in H. rewrite H. reflexivity.
Qed.

Lemma part_tl parts i : part parts (S i) = part (tl parts) i.
Proof. destruct parts; [destruct i|]; reflexivity. Qed.

Lemma step p q i n :
  compareVersions_loop p q i (S n) =
  match cmp (part p i) (part q i) with
  | Lt => -1
  | Gt => 1
  | Eq => compareVersions_loop p q (S i) n
  end.
Proof.
  simpl.
  pose proof (lt_cmp (part p i) (part q i)) as Hl.
  pose proof (gt_cmp (part p i) (part q i)) as Hg.
  destruct (cmp (part p i) (part q i));
    destruct (JS.lt (part p i) (part q i));
    destruct (JS.gt (part p i) (part q i));
    try reflexivity;
    try (destruct Hl as [Hl _]; specialize (Hl eq_refl); discriminate);
    try (destruct Hg as [Hg _]; specialize (Hg eq_refl); discriminate);
    try (destruct Hl as [_ Hl]; specialize (Hl eq_refl); discriminate);
    try (destruct Hg as [_ Hg]; specialize (Hg eq_refl); discriminate).
Qed.

Lemma range p q i n :
  compareVersions_loop p q i n = -1
  \/ compareVersions_loop p q i n = 0
  \/ compareVersions_loop p q i n = 1.
Proof.
  revert i. induction n as [|n IH]; intros i.
  - simpl. auto.
  - rewrite step. destruct (cmp (part p i) (part q i)); auto.
Qed.

Lemma opp p q i n :
  compareVersions_loop q p i n = - compareVersions_loop p q i n.
Proof.
  revert i. induction n as [|n IH]; intros i.
  - reflexivity.
  - rewrite !step, (cmp_opp (part p i) (part q i)).
    destruct (cmp (part p i) (part q i)); simpl; auto.
Qed.

Lemma tail p q i n :
  compareVersions_loop p q (S i) n = compareVersions_loop (tl p) (tl q) i n.
Proof.
  revert i. induction n as [|n IH]; intros i.
  - reflexivity.
  - rewrite !step, !part_tl, IH. reflexivity.
Qed.

(** Past both lengths every round compares 0 with 0. *)
Lemma zeros p q i n :
  (List.length p <= i)%nat -> (List.length q <= i)%nat ->
  compareVersions_loop p q i n = 0.
Proof.
  revert i. induction n as [|n IH]; intros i Hp Hq.
  - reflexivity.
  - rewrite step, (part_past p i), (part_past q i) by assumption.
    simpl. apply IH; lia.
Qed.

Lemma extend p q i n k :
  (List.length p <= i + n)%nat -> (List.length q <= i + n)%nat ->
  compareVersions_loop p q i (n + k) = compareVersions_loop p q i n.
Proof.
  revert i. induction n as [|n IH]; intros i Hp Hq.
  - simpl. apply zeros; lia.
  - change (S n + k)%nat with (S (n + k)).
    rewrite !step, IH by lia. reflexivity.
Qed.

Lemma cmp_compose x y z :
  x <> S754_nan -> y <> S754_nan -> z <> S754_nan ->
  cmp x z =
  match cmp x y, cmp y z with
  | Eq, c => c
  | c, Eq => c
  | Lt, Lt => Lt
  | Gt, Gt => Gt
  | _, _ => cmp x z
  end.
Proof.
  intros Hx Hy Hz.
  destruct (cmp x y) eqn:E1, (cmp y z) eqn:E2; try reflexivity;
    apply (cmp_trans x y z); auto.
Qed.

(** Two comparisons that do not point in opposite directions compose. *)
Lemma compose p q r c i n :
  (compareVersions_loop p q i n = c \/ compareVersions_loop p q i n = 0) ->
  (compareVersions_loop q r i n = c \/ compareVersions_loop q r i n = 0) ->
  (compareVersions_loop p q i n = c \/ compareVersions_loop q r i n = c) ->
  compareVersions_loop p r i n = c.
Proof.
  revert i. induction n as [|n IH]; intros i.
  - simpl. intros _ _ [H|H]; exact H.
  - rewrite !step.
    rewrite (cmp_compose (part p i) (part q i) (part r i))
      by apply part_not_nan.
    destruct (cmp (part p i) (part q i)), (cmp (part q i) (part r i));
      try apply IH; try (intros H1 H2 H3; lia).
Qed.

End Loop.

(** ** Facts on [compareVersions] *)
Module Versions.

Lemma cv_upto a b n :
  (List.length (parts a) <= n)%nat -> (List.length (parts b) <= n)%nat ->
  compareVersions a b = compareVersions_loop (parts a) (parts b) 0 n.
Proof.
  intros Ha Hb. unfold compareVersions. fold (parts a) (parts b).
  set (m := Nat.max _ _).
  replace n with (m + (n - m))%nat by lia.
  symmetry. apply Loop.extend; lia.
Qed.

Lemma cv_range a b :
  compareVersions a b = -1 \/ compareVersions a b = 0 \/ compareVersions a b = 1.
Proof. apply Loop.range. Qed.

Lemma cv_opp a b : compareVersions b a = - compareVersions a b.
Proof.
  unfold compareVersions. rewrite Nat.max_comm. apply Loop.opp.
Qed.

Lemma cv_refl a : compareVersions a a = 0.
Proof. pose proof (cv_opp a a). lia. Qed.

Lemma cv_compose a b c s :
  (compareVersions a b = s \/ compareVersions a b = 0) ->
  (compareVersions b c = s \/ compareVersions b c = 0) ->
  (compareVersions a b = s \/ compareVersions b c = s) ->
  compareVersions a c = s.
Proof.
  set (n := Nat.max (List.length (parts a))
              (Nat.max (List.length (parts b)) (List.length (parts c)))).
  rewrite (cv_upto a b n), (cv_upto b c n), (cv_upto a c n) by lia.
  apply Loop.compose.
Qed.

(** At least: [0 <= compareVersions a b] is a total preorder. *)
Lemma ge_trans a b c :
  0 <= compareVersions a b -> 0 <= compareVersions b c ->
  0 <= compareVersions a c.
Proof.
  intros H1 H2.
  destruct (cv_range a b) as [E1|[E1|E1]], (cv_range b c) as [E2|[E2|E2]];
    try lia.
  - rewrite (cv_compose a b c 0); auto; lia.
  - rewrite (cv_compose a b c 1); auto; lia.
  - rewrite (cv_compose a b c 1); auto; lia.
  - rewrite (cv_compose a b c 1); auto; lia.
Qed.

End Versions.

(** ** The head of a sorted array *)
Module Head.
Section Pick.
Context {A : Type}.
Variable comparefn : A -> A -> option Z.

Lemma hd_insert x l :
  hd_error (JSArray.insert comparefn x l) = pick comparefn x (hd_error l).
Proof.
  destruct l as [|y l]; simpl; [reflexivity|].
  destruct (JSArray.SortCompare comparefn x y <=? 0); reflexivity.
Qed.

Lemma hd_sort l :
  hd_error (JSArray.sort comparefn l) = fold_right (pick comparefn) None l.
Proof.
  induction l as [|x l IH]; simpl; [reflexivity|].
  rewrite hd_insert, IH. reflexivity.
Qed.

Lemma pick_in l m : fold_right (pick comparefn) None l = Some m -> In m l.
Proof.
  revert m. induction l as [|x l IH]; simpl; intros m H; [discriminate|].
  unfold pick in H at 1.
  destruct (fold_right (pick comparefn) None l) as [y|].
  - destruct (JSArray.SortCompare comparefn x y <=? 0);
      injection H as <-; auto.
  - injection H as <-; auto.
Qed.

Lemma pick_none l : fold_right (pick comparefn) None l = None <-> l = [].
Proof.
  destruct l as [|x l]; simpl; [tauto|].
  unfold pick at 1.
  destruct (fold_right (pick comparefn) None l) as [y|];
    [destruct (JSArray.SortCompare comparefn x y <=? 0)|];
    split; discriminate.
Qed.

End Pick.
End Head.

(** ** [sort] on a consistent comparator

    On the elements of [dom] the comparator is consistent: swapping the
    arguments swaps the sign, and [not_after] is transitive.  Then the
    result of [sort] is the one ECMAScript prescribes: a permutation, in
    order, with equal elements in the order they came in. *)
Module Consistent.
Section Sort.
Context {A : Type}.
Variable comparefn : A -> A -> option Z.
Variable dom : A -> Prop.

Hypothesis swap : forall x y, dom x -> dom y ->
  Z.sgn (JSArray.SortCompare comparefn y x)
  = - Z.sgn (JSArray.SortCompare comparefn x y).
Hypothesis trans : forall x y z, dom x -> dom y -> dom z ->
  not_after comparefn x y -> not_after comparefn y z ->
  not_after comparefn x z.

Lemma insert_perm x l : Permutation (x :: l) (JSArray.insert comparefn x l).
Proof.
  induction l as [|y l IH]; simpl; [reflexivity|].
  destruct (JSArray.SortCompare comparefn x y <=? 0); [reflexivity|].
  rewrite perm_swap. apply perm_skip, IH.
Qed.

Lemma sort_perm l : Permutation l (JSArray.sort comparefn l).
Proof.
  induction l as [|x l IH]; simpl; [reflexivity|].
  rewrite <- insert_perm. apply perm_skip, IH.
Qed.

Lemma sort_dom l : Forall dom l -> Forall dom (JSArray.sort comparefn l).
Proof.
  intros H. eapply Permutation_Forall; [apply sort_perm|exact H].
Qed.

Lemma insert_sorted x l :
  dom x -> Forall dom l ->
  StronglySorted (not_after comparefn) l ->
  StronglySorted (not_after comparefn) (JSArray.insert comparefn x l).
Proof.
  intros Hx Hl Hs. induction Hs as [|y l Hs IH Hy]; simpl.
  - repeat constructor.
  - apply Forall_cons_iff in Hl. destruct Hl as [Hdy Hl].
    destruct (Z.leb_spec (JSArray.SortCompare comparefn x y) 0) as [Hle|Hgt].
    + apply SSorted_cons; [apply SSorted_cons; assumption|].
      apply Forall_cons; [exact Hle|].
      rewrite Forall_forall in Hy, Hl |- *. intros z Hz.
      apply (trans x y z); auto.
    + apply SSorted_cons; [apply IH, Hl|].
      eapply Permutation_Forall; [apply insert_perm|].
      apply Forall_cons; [|exact Hy].
      unfold not_after. pose proof (swap x y Hx Hdy). lia.
Qed.

Lemma sort_sorted l :
  Forall dom l ->
  StronglySorted (not_after comparefn) (JSArray.sort comparefn l).
Proof.
  induction l as [|x l IH]; simpl; intros H; [constructor|].
  apply Forall_cons_iff in H. destruct H as [Hx Hl].
  apply insert_sorted; auto. apply sort_dom, Hl.
Qed.

(** Stability: the elements equal to [k] keep their order. *)
Lemma insert_stable k x l :
  dom k -> dom x -> Forall dom l ->
  filter (same comparefn k) (JSArray.insert comparefn x l)
  = filter (same comparefn k) (x :: l).
Proof.
  intros Hk Hx Hl. induction l as [|y l IH]; [reflexivity|].
  apply Forall_cons_iff in Hl. destruct Hl as [Hy Hl].
  cbn [JSArray.insert].
  destruct (Z.leb_spec (JSArray.SortCompare comparefn x y) 0) as [Hle|Hgt];
    [reflexivity|].
  specialize (IH Hl). cbn [filter] in IH |- *. rewrite IH.
  destruct (same comparefn k x) eqn:Ex; [|reflexivity].
  destruct (same comparefn k y) eqn:Ey; [|reflexivity].
  exfalso. unfold same in Ex, Ey. apply Z.eqb_eq in Ex, Ey.
  assert (not_after comparefn x y).
  { apply (trans x k y); auto; unfold not_after.
    - pose proof (swap k x Hk Hx). lia.
    - lia. }
  unfold not_after in *. lia.
Qed.

Lemma sort_stable k l :
  dom k -> Forall dom l ->
  filter (same comparefn k) (JSArray.sort comparefn l)
  = filter (same comparefn k) l.
Proof.
  intros Hk. induction l as [|x l IH]; intros H; [reflexivity|].
  apply Forall_cons_iff in H. destruct H as [Hx Hl].
  cbn [JSArray.sort fold_right].
  change (fold_right (JSArray.insert comparefn) [] l)
    with (JSArray.sort comparefn l).
  rewrite insert_stable by (auto using sort_dom).
  cbn [filter]. rewrite (IH Hl). reflexivity.
Qed.
End Sort.
End Consistent.

(** ** The latest record of a lineage *)

Lemma lineage_in documents id r :
  In r (lineage documents id) <-> In r documents /\ r.(Doc.documentId) = id.
Proof.
  unfold lineage. rewrite filter_In, String.eqb_eq. tauto.
Qed.

Section Lineage.
Variable Date_parse : string -> option Z.

Lemma getLatest_fold documents id :
  getLatestDocumentVersion Date_parse documents id =
  fold_right (pick (byVersionThenDate Date_parse)) None
    (lineage documents id).
Proof.
  unfold getLatestDocumentVersion. fold (lineage documents id).
  rewrite <- Head.hd_sort.
  destruct (JSArray.sort _ _); reflexivity.
Qed.

Lemma before_true x y :
  before Date_parse x y = true <->
  compareVersions x.(Doc.version) y.(Doc.version) = 1
  \/ (compareVersions x.(Doc.version) y.(Doc.version) = 0
      /\ ~ exists tx ty,
             Date_parse x.(Doc.date) = Some tx
             /\ Date_parse y.(Doc.date) = Some ty
             /\ tx < ty).
Proof.
  unfold before, JSArray.SortCompare, byVersionThenDate.
  destruct (Versions.cv_range x.(Doc.version) y.(Doc.version)) as [E|[E|E]];
    rewrite E; simpl.
  - split; [discriminate|]. intros [H|[H _]]; discriminate.
  - unfold date_sub.
    destruct (Date_parse y.(Doc.date)) as [ty|],
      (Date_parse x.(Doc.date)) as [tx|]; simpl.
    + rewrite Z.leb_le. split.
      * intros H. right. split; [reflexivity|].
        intros (tx' & ty' & Hx & Hy & Hlt).
        injection Hx as <-. injection Hy as <-. lia.
      * intros [H|[_ H]]; [discriminate|].
        destruct (Z_le_gt_dec (ty - tx) 0) as [Hle|Hgt]; [exact Hle|].
        exfalso. apply H. exists tx, ty. repeat split; lia.
    + split; [|reflexivity]. intros _. right. split; [reflexivity|].
      intros (tx' & ty' & Hx & _). discriminate.
    + split; [|reflexivity]. intros _. right. split; [reflexivity|].
      intros (tx' & ty' & _ & Hy & _). discriminate.
    + split; [|reflexivity]. intros _. right. split; [reflexivity|].
      intros (tx' & ty' & Hx & _). discriminate.
  - split; [auto|reflexivity].
Qed.

Lemma before_false x y :
  before Date_parse x y = false <-> below Date_parse x y.
Proof.
  unfold below.
  pose proof (before_true x y) as Ht.
  destruct (before Date_parse x y).
  - split; [discriminate|]. intros Hb. exfalso.
    destruct Ht as [Ht _]. specialize (Ht eq_refl).
    destruct Hb as [Hb|[Hb Hd]], Ht as [Ht|[Ht Hn]]; try lia.
    apply Hn. destruct Hd as (tr & tm & ?). exists tr, tm. assumption.
  - split; [|reflexivity]. intros _.
    destruct (Versions.cv_range x.(Doc.version) y.(Doc.version)) as [E|[E|E]].
    + left. exact E.
    + right. split; [exact E|].
      destruct (Date_parse x.(Doc.date)) as [tx|] eqn:Ex,
        (Date_parse y.(Doc.date)) as [ty|] eqn:Ey;
        try (exfalso; assert (false = true); [|discriminate];
             apply Ht; right; split; [exact E|];
             intros (tx' & ty' & Hx & Hy & _); discriminate).
      destruct (Z_lt_ge_dec tx ty) as [Hlt|Hge].
      * exists tx, ty. auto.
      * exfalso. assert (false = true); [|discriminate].
        apply Ht. right. split; [exact E|].
        intros (tx' & ty' & Hx & Hy & Hlt).
        injection Hx as <-. injection Hy as <-. lia.
    + exfalso. assert (false = true); [|discriminate].
      apply Ht. left. exact E.
Qed.

Lemma below_le r m :
  below Date_parse r m -> compareVersions r.(Doc.version) m.(Doc.version) <= 0.
Proof. intros [H|[H _]]; lia. Qed.

Lemma before_ge x y :
  before Date_parse x y = true -> 0 <= compareVersions x.(Doc.version) y.(Doc.version).
Proof. rewrite before_true. intros [H|[H _]]; lia. Qed.

(** The first record of the sorted lineage has the greatest version. *)
Lemma pick_max l m :
  fold_right (pick (byVersionThenDate Date_parse)) None l = Some m ->
  forall r, In r l ->
    0 <= compareVersions m.(Doc.version) r.(Doc.version).
Proof.
  revert m. induction l as [|x l IH]; simpl; intros m H r Hr; [tauto|].
  unfold pick in H at 1.
  destruct (fold_right _ None l) as [y|] eqn:Ey.
  - fold (before Date_parse x y) in H. destruct (before Date_parse x y) eqn:Eb.
    + injection H as <-. destruct Hr as [<-|Hr].
      * rewrite Versions.cv_refl. lia.
      * apply (Versions.ge_trans _ y.(Doc.version)).
        -- apply before_ge, Eb.
        -- apply (IH y eq_refl r Hr).
    + injection H as <-. destruct Hr as [<-|Hr].
      * apply before_false, below_le in Eb.
        rewrite Versions.cv_opp. lia.
      * apply (IH y eq_refl r Hr).
  - apply Head.pick_none in Ey. subst l.
    injection H as <-. destruct Hr as [<-|[]].
    rewrite Versions.cv_refl. lia.
Qed.

(** A record that every other record of the array is below Date_parse comes
    first. *)
Lemma pick_top l m :
  In m l -> (forall r, In r l -> r = m \/ below Date_parse r m) ->
  fold_right (pick (byVersionThenDate Date_parse)) None l = Some m.
Proof.
  induction l as [|x l IH]; simpl; intros Hm Hall; [tauto|].
  unfold pick at 1.
  destruct (fold_right _ None l) as [y|] eqn:Ey.
  - fold (before Date_parse x y).
    assert (Hy : y = m \/ below Date_parse y m)
      by (apply Hall; right; eapply Head.pick_in, Ey).
    destruct (Hall x (or_introl eq_refl)) as [->|Hx].
    + destruct Hy as [->|Hy].
      * destruct (before Date_parse m m); reflexivity.
      * assert (Eb : before Date_parse m y = true).
        { apply before_true. destruct Hy as [Hy|[Hy Hd]].
          - left. rewrite Versions.cv_opp. lia.
          - right. split; [rewrite Versions.cv_opp; lia|].
            destruct Hd as (ty & tm & Hty & Htm & Hlt).
            intros (tm' & ty' & Htm' & Hty' & Hlt').
            rewrite Htm in Htm'. rewrite Hty in Hty'.
            injection Htm' as <-. injection Hty' as <-. lia. }
        rewrite Eb. reflexivity.
    + destruct Hm as [->|Hm].
      * destruct Hy as [->|Hy].
        -- destruct (before Date_parse m m); reflexivity.
        -- assert (Eb : before Date_parse m y = true).
           { apply before_true. destruct Hy as [Hy|[Hy Hd]].
             - left. rewrite Versions.cv_opp. lia.
             - right. split; [rewrite Versions.cv_opp; lia|].
               destruct Hd as (ty & tm & Hty & Htm & Hlt).
               intros (tm' & ty' & Htm' & Hty' & Hlt').
               rewrite Htm in Htm'. rewrite Hty in Hty'.
               injection Htm' as <-. injection Hty' as <-. lia. }
           rewrite Eb. reflexivity.
      * assert (E : Some y = Some m) by (apply IH; auto).
        injection E as ->.
        apply before_false in Hx. rewrite Hx. reflexivity.
  - apply Head.pick_none in Ey. subst l.
    destruct Hm as [->|[]]. reflexivity.
Qed.

Lemma getLatest_top documents m :
  In m documents ->
  (forall r, In r documents ->
     r.(Doc.documentId) = m.(Doc.documentId) -> r = m \/ below Date_parse r m) ->
  getLatestDocumentVersion Date_parse documents m.(Doc.documentId) = Some m.
Proof.
  intros Hm Hall. rewrite getLatest_fold. apply pick_top.
  - apply lineage_in. auto.
  - intros r Hr. apply lineage_in in Hr. apply Hall; tauto.
Qed.
Lemma getLatest_none documents id :
  getLatestDocumentVersion Date_parse documents id = None <->
  forall r, In r documents -> r.(Doc.documentId) <> id.
Proof.
  rewrite getLatest_fold, Head.pick_none. split.
  - intros E r Hr Hid.
    assert (Hin : In r (lineage documents id)) by (apply lineage_in; auto).
    rewrite E in Hin. exact Hin.
  - intros H. destruct (lineage documents id) as [|x l] eqn:E; [reflexivity|].
    assert (Hin : In x (lineage documents id))
      by (rewrite E; left; reflexivity).
    apply lineage_in in Hin. destruct Hin as [Hin Hid].
    destruct (H x Hin Hid).
Qed.

Lemma getLatest_some documents id latest :
  getLatestDocumentVersion Date_parse documents id = Some latest ->
  In latest documents
  /\ latest.(Doc.documentId) = id
  /\ forall r, In r documents -> r.(Doc.documentId) = id ->
       0 <= compareVersions latest.(Doc.version) r.(Doc.version).
Proof.
  rewrite getLatest_fold. intros H.
  pose proof (Head.pick_in _ _ _ H) as Hin.
  apply lineage_in in Hin. destruct Hin as [Hin Hid].
  repeat split; auto.
  intros r Hr Hrid. apply (pick_max _ _ H).
  apply lineage_in; auto.
Qed.
Lemma isLatestVersion_top documents m :
  In m documents ->
  (exists t, Date_parse m.(Doc.date) = Some t) ->
  (forall r, In r documents ->
     r.(Doc.documentId) = m.(Doc.documentId) -> r = m \/ below Date_parse r m) ->
  isLatestVersion Date_parse documents m = true.
Proof.
  intros Hin [t Ht] Hmax.
  unfold isLatestVersion.
  rewrite (getLatest_top documents m Hin Hmax), Versions.cv_refl. simpl.
  rewrite Ht. simpl. apply Z.leb_refl.
Qed.
End Lineage.

(** The comparator of [getLatestDocumentVersion] is consistent on the
    records whose date the host reads. *)
Section Dated.
Variable Date_parse : string -> option Z.

Lemma byVersionThenDate_swap x y :
  dated Date_parse x -> dated Date_parse y ->
  Z.sgn (JSArray.SortCompare (byVersionThenDate Date_parse) y x)
  = - Z.sgn (JSArray.SortCompare (byVersionThenDate Date_parse) x y).
Proof.
  unfold dated, JSArray.SortCompare, byVersionThenDate. intros Hx Hy.
  rewrite (Versions.cv_opp x.(Doc.version) y.(Doc.version)).
  destruct (Versions.cv_range x.(Doc.version) y.(Doc.version)) as [E|[E|E]];
    rewrite E; simpl; try reflexivity.
  destruct (Date_parse x.(Doc.date)) as [tx|]; [|contradiction].
  destruct (Date_parse y.(Doc.date)) as [ty|]; [|contradiction].
  simpl. lia.
Qed.

Lemma not_after_before x y :
  not_after (byVersionThenDate Date_parse) x y
  <-> before Date_parse x y = true.
Proof. unfold not_after, before. symmetry. apply Z.leb_le. Qed.

Lemma byVersionThenDate_trans x y z :
  dated Date_parse x -> dated Date_parse y -> dated Date_parse z ->
  not_after (byVersionThenDate Date_parse) x y ->
  not_after (byVersionThenDate Date_parse) y z ->
  not_after (byVersionThenDate Date_parse) x z.
Proof.
  unfold dated. intros Hx Hy Hz.
  rewrite !not_after_before, !before_true.
  destruct (Date_parse x.(Doc.date)) as [tx|]; [|contradiction].
  destruct (Date_parse y.(Doc.date)) as [ty|]; [|contradiction].
  destruct (Date_parse z.(Doc.date)) as [tz|]; [|contradiction].
  intros [H1|[H1 D1]] [H2|[H2 D2]].
  - left. apply (Versions.cv_compose _ y.(Doc.version)); auto.
  - left. apply (Versions.cv_compose _ y.(Doc.version)); auto.
  - left. apply (Versions.cv_compose _ y.(Doc.version)); auto.
  - right. split; [apply (Versions.cv_compose _ y.(Doc.version)); auto|].
    intros (tx' & tz' & Ex & Ez & Hlt).
    injection Ex as <-. injection Ez as <-.
    destruct (Z_lt_ge_dec tx ty) as [Hxy|Hxy].
    + apply D1. exists tx, ty. auto.
    + apply D2. exists ty, tz. repeat split; auto. lia.
Qed.

(** With dates the host reads, the lineage comes out of [sort] as
    ECMAScript prescribes. *)
Lemma lineage_sorted documents id :
  Forall (dated Date_parse) documents ->
  let sorted :=
    JSArray.sort (byVersionThenDate Date_parse) (lineage documents id) in
  Permutation (lineage documents id) sorted
  /\ StronglySorted (not_after (byVersionThenDate Date_parse))
       sorted
  /\ forall k, dated Date_parse k ->
       filter (same (byVersionThenDate Date_parse) k) sorted
       = filter (same (byVersionThenDate Date_parse) k)
           (lineage documents id).
Proof.
  intros Hd sorted.
  assert (Hl : Forall (dated Date_parse) (lineage documents id)).
  { rewrite Forall_forall in Hd |- *. intros r Hr.
    apply lineage_in in Hr. destruct Hr as [Hr _]. apply Hd. exact Hr. }
  split; [apply Consistent.sort_perm|split].
  - apply (Consistent.sort_sorted _ (dated Date_parse) byVersionThenDate_swap
             byVersionThenDate_trans _ Hl).
  - intros k Hk.
    apply (Consistent.sort_stable _ (dated Date_parse) byVersionThenDate_swap
             byVersionThenDate_trans k _ Hk Hl).
Qed.
End Dated.

(** ** The claims on the lineage *)

(** C10.  [compareVersions] is antisymmetric: swapping the two versions
    negates the result, and a version compares equal to itself. *)
Theorem compareVersions_antisymmetric (a b : string) :
  compareVersions a b = - compareVersions b a /\ compareVersions a a = 0.
Proof.
  split.
  - apply Versions.cv_opp.
  - apply Versions.cv_refl.
Qed.

(** C2.  [getLatestDocumentVersion] answers null exactly when no record
    carries the document id; otherwise it answers a record of that
    lineage whose version is at least that of every record of the
    lineage under [compareVersions]. *)
Theorem getLatestDocumentVersion_greatest_version
    (Date_parse : string -> option Z)
    (documents : list DocumentRecord) (documentId : string) :
  (getLatestDocumentVersion Date_parse documents documentId = None <->
   forall r, In r documents -> r.(Doc.documentId) <> documentId)
  /\ forall latest,
       getLatestDocumentVersion Date_parse documents documentId = Some latest ->
       In latest documents
       /\ latest.(Doc.documentId) = documentId
       /\ forall r, In r documents -> r.(Doc.documentId) = documentId ->
            0 <= compareVersions latest.(Doc.version) r.(Doc.version).
Proof.
  split.
  - apply getLatest_none.
  - apply getLatest_some.
Qed.

(** The example host reads the dates of the example records. *)
Lemma getLatestDocumentVersion_greatest_version_witness :
  In docB [docA; docB]
  /\ docB.(Doc.documentId) = "D1"%string
  /\ forall r, In r [docA; docB] -> r.(Doc.documentId) = "D1"%string ->
       0 <= compareVersions docB.(Doc.version) r.(Doc.version).
Proof.
  apply (proj2 (getLatestDocumentVersion_greatest_version
                  ISODate.parse [docA; docB] "D1")).
  vm_compute. reflexivity.
Defined.

(** C3.  With [latest] the latest record of the record's lineage,
    [isLatestVersion] is true exactly when the record's version is
    strictly greater than that of [latest], or the versions compare equal
    and the record's time value is at least that of [latest]; equal
    versions with equal time values give true. *)
Theorem isLatestVersion_iff
    (Date_parse : string -> option Z)
    (documents : list DocumentRecord) (document latest : DocumentRecord)
    (Hlatest : getLatestDocumentVersion Date_parse documents
                 document.(Doc.documentId) = Some latest) :
  (isLatestVersion Date_parse documents document = true <->
   0 < compareVersions document.(Doc.version) latest.(Doc.version)
   \/ (compareVersions document.(Doc.version) latest.(Doc.version) = 0
       /\ exists t tl,
            Date_parse document.(Doc.date) = Some t
            /\ Date_parse latest.(Doc.date) = Some tl
            /\ tl <= t))
  /\ (compareVersions document.(Doc.version) latest.(Doc.version) = 0 ->
      forall t,
        Date_parse document.(Doc.date) = Some t ->
        Date_parse latest.(Doc.date) = Some t ->
        isLatestVersion Date_parse documents document = true).
Proof.
  unfold isLatestVersion. rewrite Hlatest.
  destruct (Versions.cv_range document.(Doc.version) latest.(Doc.version))
    as [E|[E|E]]; rewrite E; simpl.
  - split; [|discriminate].
    split; [discriminate|]. intros [H|[H _]]; lia.
  - split.
    + unfold date_ge.
      destruct (Date_parse document.(Doc.date)) as [t|],
        (Date_parse latest.(Doc.date)) as [tl|].
      * rewrite Z.leb_le. split.
        -- intros H. right. split; [reflexivity|]. exists t, tl. auto.
        -- intros [H|[_ (t' & tl' & Ht & Htl & Hle)]]; [lia|].
           injection Ht as <-. injection Htl as <-. exact Hle.
      * split; [discriminate|].
        intros [H|[_ (t' & tl' & _ & Htl & _)]]; [lia|discriminate].
      * split; [discriminate|].
        intros [H|[_ (t' & tl' & Ht & _)]]; [lia|discriminate].
      * split; [discriminate|].
        intros [H|[_ (t' & tl' & Ht & _)]]; [lia|discriminate].
    + intros _ t Ht Htl. rewrite Ht, Htl. simpl. apply Z.leb_refl.
  - split; [|discriminate].
    split; [intros _; left; lia|reflexivity].
Qed.

Lemma isLatestVersion_iff_witness :
  isLatestVersion ISODate.parse [docA; docB] docB = true.
Proof.
  apply (proj2 (isLatestVersion_iff ISODate.parse [docA; docB] docB docB
                  eq_refl) eq_refl 1706745600000); reflexivity.
Defined.

(** C8.  For a record of the array the lineage is never empty, so the
    null branch of [isLatestVersion] is not taken; where it is taken, for
    a record that is not in the array, the answer is false. *)
Theorem isLatestVersion_null_branch
    (Date_parse : string -> option Z)
    (documents : list DocumentRecord) (document : DocumentRecord) :
  (In document documents ->
   getLatestDocumentVersion Date_parse documents document.(Doc.documentId)
   <> None)
  /\ (getLatestDocumentVersion Date_parse documents document.(Doc.documentId)
      = None ->
      isLatestVersion Date_parse documents document = false).
Proof.
  split.
  - intros Hin E.
    apply (proj1 (getLatest_none _ _ _) E document Hin eq_refl).
  - intros E. unfold isLatestVersion. rewrite E. reflexivity.
Qed.

(** A record of a lineage the array does not hold. *)
Lemma isLatestVersion_null_branch_witness :
  isLatestVersion ISODate.parse [docA] (mkDoc "D2" "X" "1.0.0" "2024-01-01")
  = false.
Proof.
  apply (proj2 (isLatestVersion_null_branch ISODate.parse [docA]
                  (mkDoc "D2" "X" "1.0.0" "2024-01-01"))).
  reflexivity.
Defined.

(** C6, as stated, fails: a record that every other record of its
    lineage is below is not the latest for [isLatestVersion] when its
    date does not parse, since the date is then compared as NaN with
    itself. *)
Lemma isLatestVersion_undated_maximal_counterexample :
  ~ (forall (documents : list DocumentRecord) (m : DocumentRecord),
       In m documents ->
       (forall r, In r documents ->
          r.(Doc.documentId) = m.(Doc.documentId) ->
          r = m \/ below ISODate.parse r m) ->
       isLatestVersion ISODate.parse documents m = true).
Proof.
  intros H.
  specialize (H [tie_early; undated_latest] undated_latest).
  assert (E : isLatestVersion ISODate.parse [tie_early; undated_latest]
                undated_latest = false) by (vm_compute; reflexivity).
  rewrite E in H.
  assert (false = true); [|discriminate].
  apply H.
  - simpl. auto.
  - intros r [<-|[<-|[]]] _.
    + right. left. vm_compute. reflexivity.
    + left. reflexivity.
Qed.

(** C6, amended.  When every other record of the lineage is below a
    record [m] with a date (smaller version, or equal version and earlier
    date), [m] is the latest for [isLatestVersion], and every record of
    the lineage below it is not. *)
Theorem isLatestVersion_unique_maximal
    (Date_parse : string -> option Z)
    (documents : list DocumentRecord) (m : DocumentRecord)
    (Hin : In m documents)
    (Hdate : exists t, Date_parse m.(Doc.date) = Some t)
    (Hmax : forall r, In r documents ->
              r.(Doc.documentId) = m.(Doc.documentId) ->
              r = m \/ below Date_parse r m) :
  isLatestVersion Date_parse documents m = true
  /\ forall r, In r documents ->
       r.(Doc.documentId) = m.(Doc.documentId) ->
       below Date_parse r m ->
       isLatestVersion Date_parse documents r = false.
Proof.
  pose proof (getLatest_top Date_parse documents m Hin Hmax) as Htop.
  split.
  - apply isLatestVersion_top; assumption.
  - intros r _ Hid Hr. unfold isLatestVersion. rewrite Hid, Htop.
    destruct Hr as [E|[E (tr & tm & Htr & Htm & Hlt)]]; rewrite E; simpl.
    + reflexivity.
    + rewrite Htr, Htm. simpl. apply Z.leb_gt. exact Hlt.
Qed.

Lemma docA_below_docB : below ISODate.parse docA docB.
Proof. left. vm_compute. reflexivity. Qed.

Lemma isLatestVersion_unique_maximal_witness :
  isLatestVersion ISODate.parse [docA; docB] docB = true
  /\ forall r, In r [docA; docB] ->
       r.(Doc.documentId) = docB.(Doc.documentId) ->
       below ISODate.parse r docB ->
       isLatestVersion ISODate.parse [docA; docB] r = false.
Proof.
  apply (isLatestVersion_unique_maximal ISODate.parse [docA; docB] docB).
  - simpl. auto.
  - exists 1706745600000. reflexivity.
  - intros r [<-|[<-|[]]] _.
    + right. exact docA_below_docB.
    + left. reflexivity.
Defined.

(** C5, as stated, fails: two records of a lineage with equal versions
    and different dates do not make the later one the latest when a
    third record of the lineage has a greater version. *)
Lemma getLatestDocumentVersion_later_date_counterexample :
  ~ (forall (documents : list DocumentRecord) (r1 r2 : DocumentRecord),
       In r1 documents -> In r2 documents ->
       r1.(Doc.documentId) = r2.(Doc.documentId) ->
       compareVersions r1.(Doc.version) r2.(Doc.version) = 0 ->
       (exists t1 t2,
          ISODate.parse r1.(Doc.date) = Some t1
          /\ ISODate.parse r2.(Doc.date) = Some t2
          /\ t1 < t2) ->
       getLatestDocumentVersion ISODate.parse documents r2.(Doc.documentId)
       = Some r2).
Proof.
  intros H.
  specialize (H [tie_early; tie_late; newer_version] tie_early tie_late).
  assert (E : getLatestDocumentVersion ISODate.parse
                [tie_early; tie_late; newer_version] "D1"
              = Some newer_version) by (vm_compute; reflexivity).
  simpl in H. rewrite E in H.
  assert (Some newer_version = Some tie_late); [|discriminate].
  apply H; auto.
  exists 1704067200000, 1706745600000. repeat split.
Qed.

(** C5, amended.  Two records of a lineage with versions that compare
    equal and dates that parse to different time values: the one with the
    later date is the latest, provided every further record of the
    lineage is below it. *)
Theorem getLatestDocumentVersion_tie_break
    (Date_parse : string -> option Z)
    (documents : list DocumentRecord) (r1 r2 : DocumentRecord)
    (Hin1 : In r1 documents) (Hin2 : In r2 documents)
    (Hid : r1.(Doc.documentId) = r2.(Doc.documentId))
    (Hversion : compareVersions r1.(Doc.version) r2.(Doc.version) = 0)
    (Hdates : exists t1 t2,
                Date_parse r1.(Doc.date) = Some t1
                /\ Date_parse r2.(Doc.date) = Some t2
                /\ t1 < t2)
    (Hothers : forall r, In r documents ->
                 r.(Doc.documentId) = r2.(Doc.documentId) ->
                 r = r1 \/ r = r2 \/ below Date_parse r r2) :
  getLatestDocumentVersion Date_parse documents r2.(Doc.documentId) = Some r2.
Proof.
  apply getLatest_top; [exact Hin2|].
  intros r Hr Hrid.
  destruct (Hothers r Hr Hrid) as [->|[->|Hb]]; auto.
  right. right. split; [exact Hversion|exact Hdates].
Qed.

Lemma getLatestDocumentVersion_tie_break_witness :
  getLatestDocumentVersion ISODate.parse [tie_late; tie_early] "D1"
  = Some tie_late.
Proof.
  apply (getLatestDocumentVersion_tie_break ISODate.parse
           [tie_late; tie_early] tie_early tie_late).
  - simpl. auto.
  - simpl. auto.
  - reflexivity.
  - vm_compute. reflexivity.
  - exists 1704067200000, 1706745600000. repeat split.
  - intros r [<-|[<-|[]]] _; auto.
Defined.

(** ** Lookup and the decision tree *)

Lemma strict_eq_true s v : strict_eq s v = true <-> v = Some s.
Proof.
  destruct v as [s'|]; simpl.
  - rewrite String.eqb_eq. split; congruence.
  - split; discriminate.
Qed.

Lemma find_first {A : Type} (f : A -> bool) (l : list A) (r : A) :
  find f l = Some r <->
  exists l1 l2,
    l = l1 ++ r :: l2 /\ f r = true /\ forall x, In x l1 -> f x = false.
Proof.
  induction l as [|y l IH]; simpl.
  - split; [discriminate|].
    intros (l1 & l2 & E & _). destruct l1; discriminate.
  - destruct (f y) eqn:Ey.
    + split.
      * intros H. injection H as <-. exists [], l. simpl. tauto.
      * intros (l1 & l2 & E & Hr & Hl1). destruct l1 as [|z l1].
        -- injection E as -> _. reflexivity.
        -- injection E as <- _.
           rewrite (Hl1 y (or_introl eq_refl)) in Ey. discriminate.
    + rewrite IH. split.
      * intros (l1 & l2 & -> & Hr & Hl1). exists (y :: l1), l2.
        repeat split; auto. intros x [<-|Hx]; auto.
      * intros (l1 & l2 & E & Hr & Hl1). destruct l1 as [|z l1].
        -- injection E as -> _. congruence.
        -- injection E as _ ->. exists l1, l2.
           repeat split; auto. intros x Hx. apply Hl1. right. exact Hx.
Qed.

(** C7, as stated, fails: the empty id finds a record whose validation
    id is the empty string. *)
Lemma findDocumentByValidationId_empty_id_counterexample :
  ~ (forall (documents : list DocumentRecord) (id : option string),
       no_id id = true -> findDocumentByValidationId documents id = None).
Proof.
  intros H. specialize (H [unnamed_doc] (Some ""%string) eq_refl).
  discriminate.
Qed.

(** C7, amended.  [findDocumentByValidationId] answers the first record
    of the array whose validation id is the given string, and null when
    there is none: always for a null id, and for the empty id as for any
    other string. *)
Theorem findDocumentByValidationId_first_match
    (documents : list DocumentRecord) (id : option string) :
  (forall r,
     findDocumentByValidationId documents id = Some r <->
     exists l1 l2,
       documents = l1 ++ r :: l2
       /\ id = Some r.(Doc.validationId)
       /\ forall x, In x l1 -> id <> Some x.(Doc.validationId))
  /\ (findDocumentByValidationId documents id = None <->
      forall x, In x documents -> id <> Some x.(Doc.validationId))
  /\ findDocumentByValidationId documents None = None.
Proof.
  unfold findDocumentByValidationId. repeat split.
  - intros H. apply find_first in H.
    destruct H as (l1 & l2 & E & Hr & Hl1). exists l1, l2.
    repeat split; auto.
    + apply strict_eq_true, Hr.
    + intros x Hx Hid. apply strict_eq_true in Hid.
      rewrite (Hl1 x Hx) in Hid. discriminate.
  - intros (l1 & l2 & E & Hr & Hl1). apply find_first. exists l1, l2.
    repeat split; auto.
    + apply strict_eq_true, Hr.
    + intros x Hx. specialize (Hl1 x Hx).
      destruct (strict_eq x.(Doc.validationId) id) eqn:Ex; [|reflexivity].
      apply strict_eq_true in Ex. contradiction.
  - intros H x Hx Hid.
    apply (find_none _ _ H) in Hx. apply strict_eq_true in Hid.
    simpl in Hx. congruence.
  - intros H.
    match goal with
    | |- find ?f _ = None => destruct (find f documents) as [r|] eqn:E
    end; [|reflexivity].
    apply find_some in E. destruct E as [Hin Hr].
    apply strict_eq_true in Hr. destruct (H r Hin Hr).
  - induction documents as [|x l IH]; simpl; [reflexivity|exact IH].
Qed.

Lemma resolve_no_id Date_parse records id :
  no_id id = true -> resolve Date_parse records id = NoId.
Proof.
  intros H. unfold resolve, validateDocument. simpl. rewrite H. reflexivity.
Qed.

Lemma resolve_id Date_parse records id :
  no_id id = false ->
  resolve Date_parse records id =
  match findDocumentByValidationId records id with
  | None => NotFound
  | Some current =>
      if isLatestVersion Date_parse records current then Latest current
      else
        match getLatestDocumentVersion Date_parse records
                current.(Doc.documentId) with
        | Some latestDocument => Outdated current latestDocument
        | None => Failed
        end
  end.
Proof.
  intros H. unfold resolve, validateDocument. simpl. rewrite H, H.
  destruct (findDocumentByValidationId records id) as [current|];
    [|reflexivity].
  destruct (isLatestVersion Date_parse records current); [reflexivity|].
  destruct (getLatestDocumentVersion _ _ _); reflexivity.
Qed.

Lemma find_in documents id r :
  findDocumentByValidationId documents id = Some r -> In r documents.
Proof. intros H. apply find_some in H. tauto. Qed.

(** C4.  The decision tree of [validateDocument]: no id, then not found,
    then latest, then outdated with the latest record of the lineage;
    nothing else is shown, and without an id the object is left as it
    was.  On the two example records, id A is outdated by B, id B is the
    latest (its date being one the host reads), id Z is not found and no
    id is no id. *)
Theorem validateDocument_decision_tree (Date_parse : string -> option Z) :
  (forall this,
     no_id this.(Validator.validationId) = true ->
     validateDocument Date_parse this = (this, NoId))
  /\ (forall records id,
        (no_id id = true -> resolve Date_parse records id = NoId)
        /\ (no_id id = false ->
            findDocumentByValidationId records id = None ->
            resolve Date_parse records id = NotFound)
        /\ (forall current,
              no_id id = false ->
              findDocumentByValidationId records id = Some current ->
              isLatestVersion Date_parse records current = true ->
              resolve Date_parse records id = Latest current)
        /\ (forall current,
              no_id id = false ->
              findDocumentByValidationId records id = Some current ->
              isLatestVersion Date_parse records current = false ->
              exists latest,
                getLatestDocumentVersion Date_parse records
                  current.(Doc.documentId) = Some latest
                /\ resolve Date_parse records id = Outdated current latest)
        /\ resolve Date_parse records id <> Failed)
  /\ resolve Date_parse [docA; docB] (Some "A"%string) = Outdated docA docB
  /\ (Date_parse "2024-02-01"%string <> None ->
      resolve Date_parse [docA; docB] (Some "B"%string) = Latest docB)
  /\ resolve Date_parse [docA; docB] (Some "Z"%string) = NotFound
  /\ resolve Date_parse [docA; docB] None = NoId.
Proof.
  split; [|split].
  - intros this H. unfold validateDocument. rewrite H. reflexivity.
  - intros records id. split; [apply resolve_no_id|].
    split; [|split; [|split]].
    + intros Hid E. rewrite resolve_id, E by assumption. reflexivity.
    + intros current Hid E Hl.
      rewrite resolve_id, E, Hl by assumption. reflexivity.
    + intros current Hid E Hl. rewrite resolve_id, E, Hl by assumption.
      destruct (getLatestDocumentVersion _ _ _) as [latest|] eqn:El.
      * exists latest. auto.
      * exfalso. apply find_in in E.
        apply (proj1 (getLatest_none _ _ _) El current E eq_refl).
    + destruct (no_id id) eqn:Hid.
      * rewrite resolve_no_id by assumption. discriminate.
      * rewrite resolve_id by assumption.
        destruct (findDocumentByValidationId records id) as [current|] eqn:E;
          [|discriminate].
        destruct (isLatestVersion _ _ _); [discriminate|].
        destruct (getLatestDocumentVersion _ _ _) as [latest|] eqn:El;
          [discriminate|].
        exfalso. apply find_in in E.
        apply (proj1 (getLatest_none _ _ _) El current E eq_refl).
  - repeat split.
    + intros H. rewrite resolve_id by reflexivity.
      change (findDocumentByValidationId [docA; docB] (Some "B"%string))
        with (Some docB).
      assert (E : isLatestVersion Date_parse [docA; docB] docB = true).
      { apply (isLatestVersion_top Date_parse [docA; docB] docB).
        - simpl. auto.
        - destruct (Date_parse "2024-02-01"%string) as [t|] eqn:Et;
            [exists t; exact Et|contradiction].
        - intros r [<-|[<-|[]]] _; [right; left; vm_compute|left];
            reflexivity. }
      cbv beta iota. rewrite E. reflexivity.
Qed.

Lemma validateDocument_decision_tree_witness :
  resolve ISODate.parse [docA; docB] (Some "B"%string) = Latest docB.
Proof.
  apply (proj1 (proj2 (proj2 (proj2
           (validateDocument_decision_tree ISODate.parse))))).
  discriminate.
Defined.

(** ** The loop and the padded comparison *)
Module Padding.

Lemma part_0 p :
  part p 0 = match p with x :: _ => or_zero x | [] => JS.zero end.
Proof. destruct p; reflexivity. Qed.

Lemma pad_step p n :
  (List.length p <= S n)%nat ->
  pad JS.zero (S n) (map or_zero p) =
  part p 0 :: pad JS.zero n (map or_zero (tl p)).
Proof.
  intros H. unfold pad. destruct p as [|x p]; simpl.
  - rewrite Nat.sub_0_r. reflexivity.
  - reflexivity.
Qed.

Lemma loop_first_unequal n : forall p q,
  (List.length p <= n)%nat -> (List.length q <= n)%nat ->
  compareVersions_loop p q 0 n =
  first_unequal JS.lt (pad JS.zero n (map or_zero p))
    (pad JS.zero n (map or_zero q)).
Proof.
  induction n as [|n IH]; intros p q Hp Hq.
  - destruct p, q; simpl in *; solve [reflexivity | lia].
  - rewrite !pad_step by assumption.
    cbn [compareVersions_loop first_unequal].
    rewrite Loop.tail, IH.
    + reflexivity.
    + destruct p; simpl in *; lia.
    + destruct q; simpl in *; lia.
Qed.

Lemma refines a b :
  compareVersions a b = compare_padded JS.lt JS.zero segment_value a b.
Proof.
  unfold compareVersions, compare_padded.
  rewrite loop_first_unequal by lia.
  rewrite !map_map, !length_map. reflexivity.
Qed.

(** Two readings of the segments that order them alike give the same
    padded comparison. *)
Lemma first_unequal_alike {A B : Type}
    (ltA : A -> A -> bool) (ltB : B -> B -> bool) (R : A -> B -> Prop)
    (HR : forall x x' y y', R x x' -> R y y' -> ltA x y = ltB x' y') :
  forall l1 l1' l2 l2',
    Forall2 R l1 l1' -> Forall2 R l2 l2' ->
    first_unequal ltA l1 l2 = first_unequal ltB l1' l2'.
Proof.
  intros l1 l1' l2 l2' H1. revert l2 l2'.
  induction H1 as [|x x' l1 l1' Hx H1 IH]; intros l2 l2' H2.
  - reflexivity.
  - destruct H2 as [|y y' l2 l2' Hy H2]; [reflexivity|].
    simpl. rewrite (HR x x' y y' Hx Hy), (HR y y' x x' Hy Hx), (IH _ _ H2).
    reflexivity.
Qed.

Lemma pad_alike {A B : Type} (R : A -> B -> Prop) (zA : A) (zB : B) n l l' :
  R zA zB -> Forall2 R l l' -> Forall2 R (pad zA n l) (pad zB n l').
Proof.
  intros Hz H. unfold pad. rewrite (Forall2_length H).
  apply Forall2_app; [exact H|].
  induction (n - List.length l')%nat; simpl; constructor; assumption.
Qed.

End Padding.

(** ** Integers as numbers *)
Module Integers.

Lemma digits2_bounds p :
  2 ^ (Z.pos (digits2_pos p) - 1) <= Z.pos p < 2 ^ Z.pos (digits2_pos p).
Proof.
  induction p as [p IH|p IH|]; cbn [digits2_pos].
  - rewrite Pos2Z.inj_succ, (Pos2Z.inj_xI p).
    replace (Z.succ (Z.pos (digits2_pos p)) - 1)
      with (Z.succ (Z.pos (digits2_pos p) - 1)) by lia.
    rewrite !Z.pow_succ_r by lia.
    revert IH. generalize (2 ^ (Z.pos (digits2_pos p) - 1)).
    generalize (2 ^ Z.pos (digits2_pos p)). intros; lia.
  - rewrite Pos2Z.inj_succ, (Pos2Z.inj_xO p).
    replace (Z.succ (Z.pos (digits2_pos p)) - 1)
      with (Z.succ (Z.pos (digits2_pos p) - 1)) by lia.
    rewrite !Z.pow_succ_r by lia.
    revert IH. generalize (2 ^ (Z.pos (digits2_pos p) - 1)).
    generalize (2 ^ Z.pos (digits2_pos p)). intros; lia.
  - simpl. lia.
Qed.

Lemma iter_xO p k : Z.pos (Pos.iter xO p k) = Z.pos p * 2 ^ Z.pos k.
Proof.
  induction k as [|k IH] using Pos.peano_ind.
  - simpl. lia.
  - rewrite Pos.iter_succ, (Pos2Z.inj_xO (Pos.iter xO p k)), IH,
      Pos2Z.inj_succ, Z.pow_succ_r by lia.
    lia.
Qed.

Lemma digits2_iter p k :
  digits2_pos (Pos.iter xO p k) = (digits2_pos p + k)%positive.
Proof.
  induction k as [|k IH] using Pos.peano_ind.
  - simpl. lia.
  - rewrite Pos.iter_succ. cbn [digits2_pos]. rewrite IH. lia.
Qed.

Lemma digits_small p : Z.pos p < 2 ^ 53 -> Z.pos (digits2_pos p) <= 53.
Proof.
  intros H. pose proof (digits2_bounds p) as [Hl _].
  destruct (Z_le_gt_dec (Z.pos (digits2_pos p)) 53) as [|Hgt]; [assumption|].
  exfalso.
  assert (2 ^ 53 <= 2 ^ (Z.pos (digits2_pos p) - 1))
    by (apply Z.pow_le_mono_r; lia).
  lia.
Qed.

Lemma fexp_small d : 1 <= d <= 53 -> fexp JS.prec JS.emax d = d - 53.
Proof. intros H. unfold fexp, emin, JS.prec, JS.emax. lia. Qed.

Lemma digits_normal p :
  Z.pos (digits2_pos p) <= 53 -> Z.pos (digits2_pos (normal p)) = 53.
Proof.
  intros H. unfold normal.
  destruct (53 - Z.pos (digits2_pos p)) as [|k|k] eqn:E; try lia.
  rewrite digits2_iter. lia.
Qed.

Lemma shl_align_small p :
  Z.pos (digits2_pos p) <= 53 ->
  shl_align p 0 (Z.pos (digits2_pos p) - 53) =
  (normal p, Z.pos (digits2_pos p) - 53).
Proof.
  intros H. unfold shl_align, normal. rewrite Z.sub_0_r.
  destruct (Z.pos (digits2_pos p) - 53) as [|k|k] eqn:E; try lia.
  - replace (53 - Z.pos (digits2_pos p)) with 0 by lia. reflexivity.
  - replace (53 - Z.pos (digits2_pos p)) with (Z.pos k) by lia. reflexivity.
Qed.

Lemma shr_fexp_exact m e :
  Z.pos (digits2_pos m) = 53 -> -1074 <= e ->
  shr_fexp JS.prec JS.emax (Z.pos m) e loc_Exact =
  ({| shr_m := Z.pos m; shr_r := false; shr_s := false |}, e).
Proof.
  intros Hm He. unfold shr_fexp. cbn [Zdigits2]. rewrite Hm.
  replace (fexp JS.prec JS.emax (53 + e) - e) with 0
    by (unfold fexp, emin, JS.prec, JS.emax; lia).
  reflexivity.
Qed.

Lemma of_int_pos p :
  Z.pos p < 2 ^ 53 ->
  of_int (N.pos p) = S754_finite false (normal p) (Z.pos (digits2_pos p) - 53).
Proof.
  intros H. pose proof (digits_small p H) as Hd.
  unfold of_int, JS.of_decimal.
  change (0 <=? 0) with true. cbv iota.
  change (10 ^ 0) with 1. rewrite Z.mul_1_r.
  unfold binary_normalize, binary_round.
  rewrite Z.add_0_r, fexp_small, shl_align_small by lia.
  unfold binary_round_aux.
  rewrite shr_fexp_exact by (try apply digits_normal; lia).
  cbn [shr_m loc_of_shr_record round_nearest_even].
  rewrite shr_fexp_exact by (try apply digits_normal; lia).
  cbn [shr_m].
  destruct (Z.leb_spec (Z.pos (digits2_pos p) - 53) (JS.emax - JS.prec))
    as [_|Hgt]; [reflexivity|].
  unfold JS.emax, JS.prec in Hgt. lia.
Qed.

Lemma normal_value p :
  Z.pos (digits2_pos p) <= 53 ->
  Z.pos (normal p) = Z.pos p * 2 ^ (53 - Z.pos (digits2_pos p)).
Proof.
  intros H. unfold normal.
  destruct (53 - Z.pos (digits2_pos p)) as [|k|k] eqn:E; try lia.
  apply iter_xO.
Qed.

Lemma digits_mono p q :
  Z.pos (digits2_pos p) < Z.pos (digits2_pos q) -> Z.pos p < Z.pos q.
Proof.
  intros H.
  pose proof (digits2_bounds p) as [_ Hp].
  pose proof (digits2_bounds q) as [Hq _].
  assert (2 ^ Z.pos (digits2_pos p) <= 2 ^ (Z.pos (digits2_pos q) - 1))
    by (apply Z.pow_le_mono_r; lia).
  lia.
Qed.

Lemma lt_of_int m n :
  (m < 2 ^ 53)%N -> (n < 2 ^ 53)%N ->
  JS.lt (of_int m) (of_int n) = (m <? n)%N.
Proof.
  intros Hm Hn.
  assert (B : forall p, (N.pos p < 2 ^ 53)%N -> Z.pos p < 2 ^ 53).
  { intros p Hp. change (2 ^ 53) with (Z.of_N (2 ^ 53)).
    change (Z.pos p) with (Z.of_N (N.pos p)). apply N2Z.inj_lt. exact Hp. }
  
  destruct m as [|p], n as [|q].
  - reflexivity.
  - rewrite (of_int_pos q) by (apply B; exact Hn). reflexivity.
  - rewrite (of_int_pos p) by (apply B; exact Hm). reflexivity.
  - rewrite (of_int_pos p), (of_int_pos q) by (apply B; assumption).
    pose proof (digits_small p (B p Hm)) as Hdp.
    pose proof (digits_small q (B q Hn)) as Hdq.
    unfold JS.lt, SFltb, SFcompare.
    change (Pos.compare_cont Eq (normal p) (normal q))
      with (Z.pos (normal p) ?= Z.pos (normal q)).
    rewrite !normal_value by assumption.
    
    change (N.pos p <? N.pos q)%N with (Z.pos p <? Z.pos q).
    destruct (Z.compare_spec (Z.pos (digits2_pos p) - 53)
                (Z.pos (digits2_pos q) - 53)) as [E|E|E].
    + replace (Z.pos (digits2_pos p)) with (Z.pos (digits2_pos q)) by lia.
      assert (Hpow : 0 < 2 ^ (53 - Z.pos (digits2_pos q)))
        by (apply Z.pow_pos_nonneg; lia).
      revert Hpow. generalize (2 ^ (53 - Z.pos (digits2_pos q))).
      intros k Hk.
      destruct (Z.compare_spec (Z.pos p * k) (Z.pos q * k)) as [F|F|F];
        symmetry.
      * apply Z.ltb_ge. apply Z.mul_cancel_r in F; lia.
      * apply Z.ltb_lt. apply Z.mul_lt_mono_pos_r in F; lia.
      * apply Z.ltb_ge. apply Z.mul_lt_mono_pos_r in F; lia.
    + symmetry. apply Z.ltb_lt. apply digits_mono. lia.
    + symmetry. apply Z.ltb_ge.
      assert (Z.pos q < Z.pos p) by (apply digits_mono; lia). lia.
Qed.

Lemma digit_char c d :
  JS.digit_value 10 c = Some d ->
  JS.is_whitespace c = false
  /\ Ascii.eqb c "-" = false /\ Ascii.eqb c "+" = false
  /\ (Ascii.eqb c "x" || Ascii.eqb c "X")%bool = false
  /\ (Ascii.eqb c "o" || Ascii.eqb c "O")%bool = false
  /\ (Ascii.eqb c "b" || Ascii.eqb c "B")%bool = false
  /\ c <> "I"%char.
Proof.
  destruct c as [[|] [|] [|] [|] [|] [|] [|] [|]]; intros H;
    vm_compute in H; try discriminate H;
    repeat split; try reflexivity; discriminate.
Qed.

Lemma read_digits_all l : forall acc len v k,
  JS.read_digits 10 l acc len = (v, k, []) ->
  forall c, In c l -> exists d, JS.digit_value 10 c = Some d.
Proof.
  induction l as [|x l IH]; intros acc len v k H c Hc; [destruct Hc|].
  cbn [JS.read_digits] in H.
  destruct (JS.digit_value 10 x) as [d|] eqn:Ed; [|discriminate].
  destruct Hc as [<-|Hc]; [exists d; exact Ed|].
  eapply IH; eassumption.
Qed.

Lemma drop_whitespace_id l :
  (forall c, In c l -> JS.is_whitespace c = false) ->
  JS.drop_whitespace l = l.
Proof.
  destruct l as [|c l]; [reflexivity|]. intros H. simpl.
  rewrite (H c (or_introl eq_refl)). reflexivity.
Qed.

Lemma trim_id l :
  (forall c, In c l -> JS.is_whitespace c = false) -> JS.trim l = l.
Proof.
  intros H. unfold JS.trim.
  rewrite (drop_whitespace_id l H), drop_whitespace_id.
  - apply rev_involutive.
  - intros c Hc. apply H. apply in_rev. exact Hc.
Qed.

Lemma Number_digits l v k :
  JS.read_digits 10 l 0%N 0%nat = (v, S k, []) ->
  JS.StringToNumber l = of_int v.
Proof.
  intros H. pose proof (read_digits_all l _ _ _ _ H) as Hall.
  assert (Hws : forall c, In c l -> JS.is_whitespace c = false).
  { intros c Hc. destruct (Hall c Hc) as [d Hd].
    apply (digit_char c d Hd). }
  unfold JS.StringToNumber. rewrite (trim_id l Hws).
  destruct l as [|c t]; [discriminate|].
  destruct (Hall c (or_introl eq_refl)) as [d Hd].
  destruct (digit_char c d Hd) as (_ & Hm & Hp & _ & _ & _ & HI).
  rewrite Hm, Hp.
  assert (E : JS.unsigned_decimal false (c :: t) = of_int v).
  { unfold JS.unsigned_decimal.
    destruct (list_eq_dec ascii_dec (c :: t) (list_ascii_of_string "Infinity"))
      as [E|_].
    - injection E as E _. contradiction.
    - rewrite H. reflexivity. }
  destruct t as [|x t']; [exact E|].
  destruct (Hall x (or_intror (or_introl eq_refl))) as [dx Hdx].
  destruct (digit_char x dx Hdx) as (_ & _ & _ & Hx & Ho & Hb & _).
  rewrite Hx, Ho, Hb. destruct (Ascii.eqb c "0"); exact E.
Qed.

Lemma or_else_of_int n :
  (n < 2 ^ 53)%N -> JS.or_else (of_int n) JS.zero = of_int n.
Proof.
  intros H. destruct n as [|p]; [reflexivity|].
  rewrite of_int_pos; [reflexivity|].
  change (2 ^ 53) with (Z.of_N (2 ^ 53)).
  change (Z.pos p) with (Z.of_N (N.pos p)). apply N2Z.inj_lt. exact H.
Qed.

Lemma plain_stands_for s :
  plain s = true -> stands_for (segment_value s) (segment_int s).
Proof.
  unfold plain, segment_int, segment_value, JS.Number.
  destruct (JS.read_digits 10 (list_ascii_of_string s) 0%N 0%nat)
    as [[v [|k]] [|c rest]] eqn:E; intros H;
    try (exists 0%N; repeat split;
         unfold JS.or_else; apply negb_true_iff in H;
         unfold JS.Number in H; rewrite H; reflexivity).
  exists v. apply N.ltb_lt in H. repeat split; [exact H|].
  rewrite (Number_digits _ _ _ E). apply or_else_of_int, H.
Qed.

Lemma stands_for_lt x z y w :
  stands_for x z -> stands_for y w -> JS.lt x y = (z <? w).
Proof.
  intros (m & Hm & -> & ->) (n & Hn & -> & ->).
  rewrite lt_of_int by assumption.
  destruct (N.ltb_spec m n), (Z.ltb_spec (Z.of_N m) (Z.of_N n));
    try reflexivity; lia.
Qed.

Lemma plain_segments l :
  forallb plain l = true ->
  Forall2 stands_for (map segment_value l) (map segment_int l).
Proof.
  induction l as [|s l IH]; simpl; intros H; constructor.
  - apply andb_true_iff in H. apply plain_stands_for, H.
  - apply andb_true_iff in H. apply IH, H.
Qed.

Lemma compareVersions_plain a b :
  forallb plain (JS.split "." a) = true ->
  forallb plain (JS.split "." b) = true ->
  compareVersions a b = compare_padded Z.ltb 0 segment_int a b.
Proof.
  intros Ha Hb. rewrite Padding.refines. unfold compare_padded.
  rewrite !length_map.
  apply (Padding.first_unequal_alike JS.lt Z.ltb stands_for stands_for_lt);
    apply Padding.pad_alike;
    try (exists 0%N; repeat split; reflexivity);
    apply plain_segments; assumption.
Qed.

End Integers.

(** ** The claim on the comparison *)

(** C1, as stated, fails: no reading of the segments as integers that
    reads 0 as 0 and 1 as 1 gives the results of [compareVersions], for
    the segment 1e-1 is the number 0.1 and compares above 0 and below 1. *)
Lemma compareVersions_integer_segments_counterexample :
  ~ exists read_int : string -> Z,
      read_int "0"%string = 0 /\ read_int "1"%string = 1
      /\ forall a b,
           compareVersions a b = compare_padded Z.ltb 0 read_int a b.
Proof.
  intros (read_int & H0 & H1 & H).
  pose proof (H "1e-1"%string "0"%string) as Ha.
  pose proof (H "1e-1"%string "1"%string) as Hb.
  change (compareVersions "1e-1" "0") with 1 in Ha.
  change (compareVersions "1e-1" "1") with (-1) in Hb.
  unfold compare_padded in Ha, Hb.
  cbn [JS.split Ascii.eqb Bool.eqb map List.length Nat.max pad Nat.sub
         repeat app first_unequal] in Ha, Hb.
  rewrite H0 in Ha. rewrite H1 in Hb.
  destruct (Z.ltb_spec (read_int "1e-1"%string) 0),
    (Z.ltb_spec 0 (read_int "1e-1"%string)),
    (Z.ltb_spec (read_int "1e-1"%string) 1),
    (Z.ltb_spec 1 (read_int "1e-1"%string)); lia.
Qed.

(** Beyond 2^53 digits are lost, and Number reads more than digits. *)
Example compareVersions_rounds :
  compareVersions "9007199254740993" "9007199254740992" = 0
  /\ compareVersions "1e1" "10" = 0
  /\ compareVersions "0x10" "16" = 0
  /\ compareVersions "1.0.0-beta" "1.0.0" = 0.
Proof. repeat split. Qed.

(** C1, amended.  [compareVersions] splits both versions on the dot,
    reads each segment with Number, a NaN counting as 0, pads the
    shorter sequence with zeros, compares pairwise from the first segment
    and answers -1 or 1 at the first unequal pair, 0 when there is none;
    where the segments are decimal digits below 2^53, or read as NaN or
    zero, that is the comparison of the segments read as integers.
    1.2.0 is below 1.10.0, and 1.0 equals 1.0.0. *)
Theorem compareVersions_padded_segments :
  (forall a b,
     compareVersions a b = compare_padded JS.lt JS.zero segment_value a b
     /\ (compareVersions a b = -1 \/ compareVersions a b = 0
         \/ compareVersions a b = 1))
  /\ (forall a b,
        forallb plain (JS.split "." a) = true ->
        forallb plain (JS.split "." b) = true ->
        compareVersions a b = compare_padded Z.ltb 0 segment_int a b)
  /\ compareVersions "1.2.0" "1.10.0" = -1
  /\ compareVersions "1.0" "1.0.0" = 0.
Proof.
  split; [|split; [|split]].
  - intros a b. split.
    + apply Padding.refines.
    + apply Versions.cv_range.
  - apply Integers.compareVersions_plain.
  - reflexivity.
  - reflexivity.
Qed.

Lemma compareVersions_padded_segments_witness :
  compareVersions "1.2.0" "1.10.0"
  = compare_padded Z.ltb 0 segment_int "1.2.0" "1.10.0".
Proof.
  apply (proj1 (proj2 compareVersions_padded_segments)); reflexivity.
Defined.

(** ** The heap under [validateDocument] *)
Module StoreFacts.
Lemma extends_refl h : Store.extends h h.
Proof. intros a Ha. auto. Qed.

Lemma extends_trans h1 h2 h3 :
  Store.extends h1 h2 -> Store.extends h2 h3 -> Store.extends h1 h3.
Proof.
  intros H12 H23 a Ha.
  destruct (H12 a Ha) as [Ha2 E2]. destruct (H23 a Ha2) as [Ha3 E3].
  split; [exact Ha3|congruence].
Qed.

Lemma extends_app h v : Store.extends h (h ++ [v]).
Proof.
  intros a Ha. split.
  - rewrite length_app. simpl. lia.
  - unfold Store.read. apply app_nth1. exact Ha.
Qed.

Lemma write_last h v w : Store.write (h ++ [v]) (List.length h) w = h ++ [w].
Proof.
  unfold Store.write.
  rewrite skipn_all2 by (rewrite length_app; simpl; lia).
  rewrite firstn_app, firstn_all, Nat.sub_diag. cbn [firstn].
  rewrite app_nil_r. reflexivity.
Qed.

Lemma read_last h v : Store.read (h ++ [v]) (List.length h) = v.
Proof. unfold Store.read. rewrite app_nth2, Nat.sub_diag by lia. reflexivity. Qed.

Lemma getLatest_pure Date_parse h this documentId :
  exists sorted,
    Store.getLatestDocumentVersion Date_parse h this documentId =
    (h ++ [sorted],
     getLatestDocumentVersion Date_parse
       (Store.read h this.(Store.documents)) documentId).
Proof.
  unfold Store.getLatestDocumentVersion, Store.filter, Store.sort, Store.alloc.
  rewrite read_last, write_last, read_last. eexists. reflexivity.
Qed.

Lemma isLatest_pure Date_parse h this document :
  exists sorted,
    Store.isLatestVersion Date_parse h this document =
    (h ++ [sorted],
     isLatestVersion Date_parse (Store.read h this.(Store.documents)) document).
Proof.
  unfold Store.isLatestVersion.
  destruct (getLatest_pure Date_parse h this document.(Doc.documentId))
    as [sorted E].
  rewrite E. exists sorted. reflexivity.
Qed.

Lemma validateDocument_pure Date_parse h this :
  (this.(Store.documents) < List.length h)%nat ->
  let '(h', this', shown) := Store.validateDocument Date_parse h this in
  Store.extends h h'
  /\ (Store.pure h' this', shown)
     = validateDocument Date_parse (Store.pure h this).
Proof.
  intros Ha. unfold Store.validateDocument, validateDocument.
  cbn [Store.pure Validator.validationId Validator.documents].
  destruct (no_id this.(Store.validationId));
    [split; [apply extends_refl|reflexivity]|].
  unfold Store.findDocumentByValidationId, findDocumentByValidationId.
  match goal with
  | |- context [find ?f (Store.read h this.(Store.documents))] =>
      destruct (find f (Store.read h this.(Store.documents))) as [current|]
  end; [|split; [apply extends_refl|reflexivity]].
  match goal with
  | |- context [Store.isLatestVersion Date_parse h ?o current] =>
      destruct (isLatest_pure Date_parse h o current) as [s1 E1]; rewrite E1
  end.
  cbn [Store.documents].
  destruct (isLatestVersion Date_parse _ current).
  - split; [apply extends_app|]. unfold Store.pure.
    cbn [Store.documents Store.validationId Store.currentDocument].
    rewrite (proj2 (extends_app h s1 _ Ha)). reflexivity.
  - match goal with
    | |- context [Store.getLatestDocumentVersion Date_parse ?h1 ?o ?i] =>
        destruct (getLatest_pure Date_parse h1 o i) as [s2 E2]; rewrite E2
    end.
    cbn [Store.documents].
    rewrite (proj2 (extends_app h s1 _ Ha)).
    assert (Hext : Store.extends h ((h ++ [s1]) ++ [s2]))
      by (eapply extends_trans; apply extends_app).
    clear E1 E2.
    destruct (getLatestDocumentVersion Date_parse
                (Store.read h this.(Store.documents)) current.(Doc.documentId));
      cbv beta iota; (split; [exact Hext|]); unfold Store.pure;
      cbn [Store.documents Store.validationId Store.currentDocument];
      rewrite (proj2 (Hext _ Ha)); reflexivity.
Qed.

End StoreFacts.

Lemma validateDocument_display Date_parse this :
  snd (validateDocument Date_parse this) =
  resolve Date_parse this.(Validator.documents)
    this.(Validator.validationId).
Proof.
  unfold resolve, validateDocument. cbn [Validator.validationId Validator.documents].
  destruct (no_id this.(Validator.validationId)) eqn:E.
  - reflexivity.
  - rewrite E.
    destruct (findDocumentByValidationId _ _) as [current|]; [|reflexivity].
    destruct (isLatestVersion _ _ _); [reflexivity|].
    destruct (getLatestDocumentVersion _ _ _); reflexivity.
Qed.

Lemma store_display Date_parse h this :
  (this.(Store.documents) < List.length h)%nat ->
  snd (Store.validateDocument Date_parse h this) =
  resolve Date_parse (Store.read h this.(Store.documents))
    this.(Store.validationId).
Proof.
  intros Ha.
  pose proof (StoreFacts.validateDocument_pure Date_parse h this Ha) as H.
  destruct (Store.validateDocument Date_parse h this) as [[h' this'] shown].
  destruct H as [_ H]. cbn [snd].
  apply (f_equal snd) in H. cbn [snd] in H. rewrite H.
  apply validateDocument_display.
Qed.

Lemma store_object Date_parse h this :
  (snd (fst (Store.validateDocument Date_parse h this))).(Store.documents)
  = this.(Store.documents)
  /\ (snd (fst (Store.validateDocument Date_parse h this))).(Store.validationId)
     = this.(Store.validationId).
Proof.
  unfold Store.validateDocument.
  destruct (no_id this.(Store.validationId)); [split; reflexivity|].
  destruct (Store.findDocumentByValidationId h this _) as [current|];
    [|split; reflexivity].
  destruct (Store.isLatestVersion _ _ _ _) as [h1 [|]]; [split; reflexivity|].
  destruct (Store.getLatestDocumentVersion _ _ _ _) as [h2 [latest|]];
    split; reflexivity.
Qed.

Lemma store_extends Date_parse h this :
  (this.(Store.documents) < List.length h)%nat ->
  Store.extends h (fst (fst (Store.validateDocument Date_parse h this))).
Proof.
  intros Ha.
  pose proof (StoreFacts.validateDocument_pure Date_parse h this Ha) as H.
  destruct (Store.validateDocument Date_parse h this) as [[h' this'] shown].
  apply H.
Qed.

(** C9.  What [validateDocument] shows depends on the records and the id
    alone: two objects with the same records and the same id show the
    same, a second run on the object and heap the first run left shows
    what the first run showed, a run leaves every array that was there,
    the documents first, as it was, and what is shown is what [resolve]
    computes from the records and the id. *)
Theorem validateDocument_deterministic
    (Date_parse : string -> option Z)
    (h h' : Store.heap) (this this' : Store.object)
    (Ha : (this.(Store.documents) < List.length h)%nat)
    (Ha' : (this'.(Store.documents) < List.length h')%nat)
    (Hrecords : Store.read h this.(Store.documents)
                = Store.read h' this'.(Store.documents))
    (Hid : this.(Store.validationId) = this'.(Store.validationId)) :
  snd (Store.validateDocument Date_parse h this)
  = snd (Store.validateDocument Date_parse h' this')
  /\ snd (Store.validateDocument Date_parse
            (fst (fst (Store.validateDocument Date_parse h this)))
            (snd (fst (Store.validateDocument Date_parse h this))))
     = snd (Store.validateDocument Date_parse h this)
  /\ Store.extends h (fst (fst (Store.validateDocument Date_parse h this)))
  /\ Store.read (fst (fst (Store.validateDocument Date_parse h this)))
       this.(Store.documents)
     = Store.read h this.(Store.documents)
  /\ snd (Store.validateDocument Date_parse h this)
     = resolve Date_parse (Store.read h this.(Store.documents))
         this.(Store.validationId).
Proof.
  pose proof (store_extends Date_parse h this Ha) as Hext.
  pose proof (store_object Date_parse h this) as [Hdocs Hvid].
  split; [|split; [|split; [|split]]].
  - rewrite !store_display by assumption. rewrite Hrecords, Hid. reflexivity.
  - rewrite (store_display _ _ _ Ha).
    rewrite store_display by (rewrite Hdocs; apply Hext, Ha).
    rewrite Hdocs, Hvid, (proj2 (Hext _ Ha)). reflexivity.
  - exact Hext.
  - apply Hext, Ha.
  - apply store_display, Ha.
Qed.

Lemma validateDocument_deterministic_witness :
  snd (Store.validateDocument ISODate.parse
         (fst (fst (Store.validateDocument ISODate.parse example_heap
                      (example_object "A"))))
         (snd (fst (Store.validateDocument ISODate.parse example_heap
                      (example_object "A")))))
  = snd (Store.validateDocument ISODate.parse example_heap (example_object "A")).
Proof.
  apply (validateDocument_deterministic ISODate.parse
           example_heap example_heap (example_object "A") (example_object "A")).
  - simpl. lia.
  - simpl. lia.
  - reflexivity.
  - reflexivity.
Defined.

(** ** More on the order of versions *)

Module VersionFacts.

Lemma split_app sep a s :
  JS.split sep (a ++ String sep s) = JS.split sep a ++ JS.split sep s.
Proof.
  induction a as [|c a IH]; simpl.
  - rewrite Ascii.eqb_refl. reflexivity.
  - destruct (Ascii.eqb c sep).
    + rewrite IH. reflexivity.
    + rewrite IH. destruct (JS.split sep a) as [|seg segs] eqn:E.
      * destruct a; simpl in E; [discriminate|].
        destruct (Ascii.eqb a sep); [discriminate|].
        destruct (JS.split sep a0); discriminate.
      * reflexivity.
Qed.

Lemma split_dot_free s : dot_free s = true -> JS.split "." s = [s].
Proof.
  induction s as [|c s IH]; simpl; [reflexivity|].
  intros H. apply andb_true_iff in H. destruct H as [Hc Hs].
  apply negb_true_iff in Hc. rewrite Hc, (IH Hs). reflexivity.
Qed.

Lemma part_falsy p x i :
  JS.truthy x = false -> part (p ++ [x]) i = part p i.
Proof.
  intros Hx. unfold part.
  destruct (Nat.lt_ge_cases i (List.length p)) as [Hlt|Hge].
  - rewrite nth_error_app1 by assumption. reflexivity.
  - rewrite nth_error_app2 by assumption.
    rewrite (proj2 (nth_error_None p i) Hge).
    destruct (i - List.length p)%nat as [|k]; simpl.
    + unfold JS.or_else. rewrite Hx. reflexivity.
    + destruct k; reflexivity.
Qed.

Lemma loop_ext p p' q q' :
  (forall i, part p i = part p' i) -> (forall i, part q i = part q' i) ->
  forall n i,
    compareVersions_loop p q i n = compareVersions_loop p' q' i n.
Proof.
  intros Hp Hq. induction n as [|n IH]; intros i; [reflexivity|].
  cbn [compareVersions_loop]. rewrite Hp, Hq, IH. reflexivity.
Qed.

End VersionFacts.

(** X1.  [compareVersions] orders the versions: "not below" is
    transitive, and two versions that compare equal compare alike with
    every third. *)
Theorem compareVersions_total_preorder (a b c : string) :
  (0 <= compareVersions a b -> 0 <= compareVersions b c ->
   0 <= compareVersions a c)
  /\ (compareVersions a b = 0 -> compareVersions a c = compareVersions b c).
Proof.
  split.
  - apply Versions.ge_trans.
  - intros E. apply (Versions.cv_compose a b c); auto.
Qed.

(** X2.  A last segment that Number reads as NaN or as a zero does not
    count: with or without it a version compares the same. *)
Theorem compareVersions_trailing_segment (a b s : string)
    (Hdot : dot_free s = true)
    (Hzero : JS.truthy (JS.Number s) = false) :
  compareVersions (a ++ String "." s) b = compareVersions a b
  /\ compareVersions b (a ++ String "." s) = compareVersions b a.
Proof.
  assert (E : compareVersions (a ++ String "." s) b = compareVersions a b).
  { set (n := Nat.max (S (List.length (parts a))) (List.length (parts b))).
    assert (Hparts : parts (a ++ String "." s) = parts a ++ [JS.Number s]).
    { unfold parts.
      rewrite VersionFacts.split_app, (VersionFacts.split_dot_free s Hdot),
        map_app. reflexivity. }
    rewrite (Versions.cv_upto (a ++ String "." s) b n),
      (Versions.cv_upto a b n).
    - rewrite Hparts. apply VersionFacts.loop_ext; [|reflexivity].
      intros i. apply VersionFacts.part_falsy, Hzero.
    - unfold n. lia.
    - unfold n. lia.
    - rewrite Hparts, length_app. simpl. unfold n. lia.
    - unfold n. lia. }
  split; [exact E|].
  rewrite (Versions.cv_opp (a ++ String "." s) b), E.
  symmetry. apply Versions.cv_opp.
Qed.

Lemma compareVersions_trailing_segment_witness :
  compareVersions "1.0.0-beta" "2" = compareVersions "1.0" "2"
  /\ compareVersions "2" "1.0.0-beta" = compareVersions "2" "1.0".
Proof.
  apply (compareVersions_trailing_segment "1.0" "2" "0-beta"); reflexivity.
Defined.

(** X3.  On records whose dates the host reads, the comparator handed to
    [sort] is consistent: swapping its arguments swaps the sign of its
    result, and "not after" is transitive. *)
Theorem byVersionThenDate_consistent
    (Date_parse : string -> option Z) (x y z : DocumentRecord)
    (Hx : dated Date_parse x) (Hy : dated Date_parse y)
    (Hz : dated Date_parse z) :
  Z.sgn (JSArray.SortCompare (byVersionThenDate Date_parse) y x)
  = - Z.sgn (JSArray.SortCompare (byVersionThenDate Date_parse) x y)
  /\ (JSArray.SortCompare (byVersionThenDate Date_parse) x y <= 0 ->
      JSArray.SortCompare (byVersionThenDate Date_parse) y z <= 0 ->
      JSArray.SortCompare (byVersionThenDate Date_parse) x z <= 0).
Proof.
  split.
  - apply byVersionThenDate_swap; assumption.
  - apply (byVersionThenDate_trans Date_parse x y z); assumption.
Qed.

Lemma byVersionThenDate_consistent_witness :
  Z.sgn (JSArray.SortCompare (byVersionThenDate ISODate.parse) docB docA)
  = - Z.sgn (JSArray.SortCompare (byVersionThenDate ISODate.parse) docA docB).
Proof.
  apply (byVersionThenDate_consistent ISODate.parse docA docB docA);
    discriminate.
Defined.

(** ** More on the latest record *)

Module LatestFacts.
Section Dated.
Variable Date_parse : string -> option Z.

Lemma before_total x y :
  dated Date_parse x -> dated Date_parse y ->
  before Date_parse x y = false -> before Date_parse y x = true.
Proof.
  intros Hx Hy H.
  pose proof (byVersionThenDate_swap Date_parse x y Hx Hy) as Hs.
  unfold before in *. apply Z.leb_gt in H. apply Z.leb_le. lia.
Qed.

Lemma before_trans x y z :
  dated Date_parse x -> dated Date_parse y -> dated Date_parse z ->
  before Date_parse x y = true -> before Date_parse y z = true ->
  before Date_parse x z = true.
Proof.
  intros Hx Hy Hz H1 H2.
  apply not_after_before. apply not_after_before in H1, H2.
  apply (byVersionThenDate_trans Date_parse x y z); assumption.
Qed.

(** The head of the sorted array is the first record of the array that
    none is strictly above. *)
Lemma pick_first_maximal l m :
  Forall (dated Date_parse) l ->
  fold_right (pick (byVersionThenDate Date_parse)) None l = Some m ->
  exists l1 l2,
    l = l1 ++ m :: l2
    /\ (forall r, In r l1 -> below Date_parse r m)
    /\ (forall r, In r l2 -> ~ below Date_parse m r).
Proof.
  revert m. induction l as [|x l IH]; simpl; intros m Hd H; [discriminate|].
  apply Forall_cons_iff in Hd. destruct Hd as [Hx Hl].
  unfold pick in H at 1.
  destruct (fold_right _ None l) as [y|] eqn:Ey.
  - destruct (IH y Hl eq_refl) as (l1 & l2 & -> & H1 & H2).
    assert (Hy : dated Date_parse y).
    { rewrite Forall_forall in Hl. apply Hl, in_elt. }
    fold (before Date_parse x y) in H.
    destruct (before Date_parse x y) eqn:Eb; injection H as <-.
    + exists [], (l1 ++ y :: l2). repeat split; [intros r []|].
      intros r Hr Hb. apply before_false in Hb.
      assert (Hdr : dated Date_parse r)
        by (rewrite Forall_forall in Hl; apply Hl, Hr).
      assert (Hyr : before Date_parse y r = true).
      { apply in_app_or in Hr. destruct Hr as [Hr|[<-|Hr]].
        - apply before_total; auto. apply before_false, H1, Hr.
        - destruct (before Date_parse y y) eqn:E; [reflexivity|].
          pose proof (before_total y y Hy Hy E). congruence.
        - destruct (before Date_parse y r) eqn:E; [reflexivity|].
          apply before_false in E. destruct (H2 r Hr E). }
      rewrite (before_trans x y r Hx Hy Hdr Eb Hyr) in Hb. discriminate.
    + exists (x :: l1), l2. repeat split; auto.
      intros r [<-|Hr]; [apply before_false, Eb|apply H1, Hr].
  - apply Head.pick_none in Ey. subst l. injection H as <-.
    exists [], []. repeat split; intros r [].
Qed.

Lemma lineage_dated documents id :
  Forall (dated Date_parse) documents ->
  Forall (dated Date_parse) (lineage documents id).
Proof.
  intros Hd. rewrite Forall_forall in Hd |- *. intros r Hr.
  apply lineage_in in Hr. destruct Hr as [Hr _]. apply Hd, Hr.
Qed.

Lemma getLatest_first_maximal documents id m :
  Forall (dated Date_parse) documents ->
  getLatestDocumentVersion Date_parse documents id = Some m ->
  exists l1 l2,
    lineage documents id = l1 ++ m :: l2
    /\ (forall r, In r l1 -> below Date_parse r m)
    /\ (forall r, In r l2 -> ~ below Date_parse m r).
Proof.
  intros Hd H. rewrite getLatest_fold in H.
  apply pick_first_maximal; [apply lineage_dated, Hd|exact H].
Qed.

Lemma below_irrefl r : ~ below Date_parse r r.
Proof.
  intros [H|[_ (t1 & t2 & E1 & E2 & Hlt)]].
  - rewrite Versions.cv_refl in H. discriminate.
  - rewrite E1 in E2. injection E2 as <-. lia.
Qed.

(** No record of the lineage is strictly above the latest. *)
Lemma getLatest_not_below documents id m r :
  Forall (dated Date_parse) documents ->
  getLatestDocumentVersion Date_parse documents id = Some m ->
  In r documents -> r.(Doc.documentId) = id ->
  ~ below Date_parse m r.
Proof.
  intros Hd H Hr Hid Hb.
  destruct (getLatest_first_maximal documents id m Hd H)
    as (l1 & l2 & E & H1 & H2).
  assert (Hin : In r (lineage documents id)) by (apply lineage_in; auto).
  rewrite E in Hin. apply in_app_or in Hin. destruct Hin as [Hin|[<-|Hin]].
  - specialize (H1 r Hin).
    apply before_false in Hb, H1.
    assert (Hdr : dated Date_parse r)
      by (rewrite Forall_forall in Hd; apply Hd, Hr).
    assert (Hdm : dated Date_parse m).
    { rewrite getLatest_fold in H. apply Head.pick_in, lineage_in in H.
      rewrite Forall_forall in Hd. apply Hd, H. }
    rewrite (before_total r m Hdr Hdm H1) in Hb. discriminate.
  - apply (below_irrefl m Hb).
  - apply (H2 r Hin Hb).
Qed.

(** [isLatestVersion] is false exactly on the records below the latest. *)
Lemma isLatest_false documents r m :
  dated Date_parse r -> dated Date_parse m ->
  getLatestDocumentVersion Date_parse documents r.(Doc.documentId) = Some m ->
  0 <= compareVersions m.(Doc.version) r.(Doc.version) ->
  (isLatestVersion Date_parse documents r = false <-> below Date_parse r m).
Proof.
  unfold dated, isLatestVersion, below. intros Hr Hm H Hge. rewrite H.
  rewrite (Versions.cv_opp r.(Doc.version) m.(Doc.version)) in Hge.
  destruct (Date_parse r.(Doc.date)) as [tr|]; [|contradiction].
  destruct (Date_parse m.(Doc.date)) as [tm|]; [|contradiction].
  destruct (Versions.cv_range r.(Doc.version) m.(Doc.version)) as [E|[E|E]];
    rewrite E in *; simpl; [split; auto| |lia].
  - rewrite Z.leb_gt. split.
    + intros Hlt. right. split; [reflexivity|]. exists tr, tm. auto.
    + intros [Hb|[_ (tr' & tm' & Er & Em & Hlt)]]; [discriminate|].
      injection Er as <-. injection Em as <-. exact Hlt.
Qed.
End Dated.
End LatestFacts.

(** X4.  With dates the host reads, [getLatestDocumentVersion] answers
    the first record of the lineage, in the order of the array, that no
    record of the lineage is strictly above: the records before it are
    below it, and it is below none of those after it. *)
Theorem getLatestDocumentVersion_first_maximal
    (Date_parse : string -> option Z)
    (documents : list DocumentRecord) (documentId : string)
    (latest : DocumentRecord)
    (Hdated : Forall (dated Date_parse) documents)
    (Hlatest : getLatestDocumentVersion Date_parse documents documentId
               = Some latest) :
  exists l1 l2,
    filter (fun doc => String.eqb doc.(Doc.documentId) documentId) documents
    = l1 ++ latest :: l2
    /\ (forall r, In r l1 -> below Date_parse r latest)
    /\ (forall r, In r l2 -> ~ below Date_parse latest r).
Proof.
  apply (LatestFacts.getLatest_first_maximal Date_parse documents documentId
           latest Hdated Hlatest).
Qed.

Lemma getLatestDocumentVersion_first_maximal_witness :
  exists l1 l2,
    filter (fun doc => String.eqb doc.(Doc.documentId) "D1") [docA; docB]
    = l1 ++ docB :: l2
    /\ (forall r, In r l1 -> below ISODate.parse r docB)
    /\ (forall r, In r l2 -> ~ below ISODate.parse docB r).
Proof.
  apply (getLatestDocumentVersion_first_maximal ISODate.parse
           [docA; docB] "D1" docB).
  - repeat constructor; discriminate.
  - reflexivity.
Defined.

(** X5.  When one record of a lineage is above all the others, the order
    of the array does not matter: every rearrangement of the array has
    that record as the latest of the lineage. *)
Theorem getLatestDocumentVersion_order_irrelevant
    (Date_parse : string -> option Z)
    (documents documents' : list DocumentRecord) (m : DocumentRecord)
    (Hperm : Permutation documents documents')
    (Hin : In m documents)
    (Hmax : forall r, In r documents ->
              r.(Doc.documentId) = m.(Doc.documentId) ->
              r = m \/ below Date_parse r m) :
  getLatestDocumentVersion Date_parse documents' m.(Doc.documentId) = Some m
  /\ getLatestDocumentVersion Date_parse documents m.(Doc.documentId)
     = Some m.
Proof.
  split.
  - apply getLatest_top.
    + apply (Permutation_in _ Hperm Hin).
    + intros r Hr. apply Hmax.
      apply (Permutation_in _ (Permutation_sym Hperm) Hr).
  - apply getLatest_top; assumption.
Qed.

Lemma getLatestDocumentVersion_order_irrelevant_witness :
  getLatestDocumentVersion ISODate.parse [docB; docA] "D1" = Some docB
  /\ getLatestDocumentVersion ISODate.parse [docA; docB] "D1" = Some docB.
Proof.
  apply (getLatestDocumentVersion_order_irrelevant ISODate.parse
           [docA; docB] [docB; docA] docB).
  - apply perm_swap.
  - simpl. auto.
  - intros r [<-|[<-|[]]] _; [right; left; vm_compute|left]; reflexivity.
Defined.

(** X6.  With dates the host reads, a record of the array is the latest
    for [isLatestVersion] exactly when it ties with the latest record of
    its lineage: the versions compare equal and the time values are the
    same. *)
Theorem isLatestVersion_iff_tie
    (Date_parse : string -> option Z)
    (documents : list DocumentRecord) (document latest : DocumentRecord)
    (Hdated : Forall (dated Date_parse) documents)
    (Hin : In document documents)
    (Hlatest : getLatestDocumentVersion Date_parse documents
                 document.(Doc.documentId) = Some latest) :
  isLatestVersion Date_parse documents document = true <->
  compareVersions document.(Doc.version) latest.(Doc.version) = 0
  /\ Date_parse document.(Doc.date) = Date_parse latest.(Doc.date).
Proof.
  assert (Hd : dated Date_parse document)
    by (rewrite Forall_forall in Hdated; apply Hdated, Hin).
  destruct (getLatest_some Date_parse _ _ _ Hlatest) as (Hl & _ & Hge).
  assert (Hdl : dated Date_parse latest)
    by (rewrite Forall_forall in Hdated; apply Hdated, Hl).
  specialize (Hge document Hin eq_refl).
  pose proof (LatestFacts.isLatest_false Date_parse documents document latest
                Hd Hdl Hlatest Hge) as Hfalse.
  pose proof (LatestFacts.getLatest_not_below Date_parse documents _ latest
                document Hdated Hlatest Hin eq_refl) as Hnb.
  unfold dated in Hd, Hdl.
  destruct (Date_parse document.(Doc.date)) as [t|] eqn:Et; [|contradiction].
  destruct (Date_parse latest.(Doc.date)) as [tl|] eqn:Etl; [|contradiction].
  split.
  - intros H.
    assert (Hnb' : ~ below Date_parse document latest).
    { intros Hb. apply Hfalse in Hb. congruence. }
    rewrite (Versions.cv_opp document.(Doc.version) latest.(Doc.version))
      in Hge.
    destruct (Versions.cv_range document.(Doc.version) latest.(Doc.version))
      as [E|[E|E]]; try lia.
    + exfalso. apply Hnb'. left. exact E.
    + split; [exact E|]. f_equal.
      destruct (Z.lt_trichotomy t tl) as [Hlt|[Heq|Hgt]]; [|exact Heq|].
      * exfalso. apply Hnb'. right. split; [exact E|].
        exists t, tl. rewrite Et, Etl. auto.
      * exfalso. apply Hnb. right. split.
        -- rewrite Versions.cv_opp, E. reflexivity.
        -- exists tl, t. rewrite Et, Etl. auto.
  - intros [E Ed]. injection Ed as <-.
    destruct (isLatestVersion Date_parse documents document) eqn:Ei;
      [reflexivity|].
    exfalso. destruct (proj1 Hfalse eq_refl) as [Hb|[_ (a & b & Ea & Eb & Hlt)]].
    + rewrite E in Hb. discriminate.
    + rewrite Et in Ea. rewrite Etl in Eb.
      injection Ea as <-. injection Eb as <-. lia.
Qed.

Lemma isLatestVersion_iff_tie_witness :
  isLatestVersion ISODate.parse [docA; docB] docB = true <->
  compareVersions docB.(Doc.version) docB.(Doc.version) = 0
  /\ ISODate.parse docB.(Doc.date) = ISODate.parse docB.(Doc.date).
Proof.
  apply (isLatestVersion_iff_tie ISODate.parse [docA; docB] docB docB).
  - repeat constructor; discriminate.
  - simpl. auto.
  - reflexivity.
Defined.

(** ** What the page shows *)

Module ShownFacts.

Lemma undated_not_latest Date_parse documents r :
  In r documents -> Date_parse r.(Doc.date) = None ->
  isLatestVersion Date_parse documents r = false.
Proof.
  intros Hin Hd. unfold isLatestVersion.
  destruct (getLatestDocumentVersion Date_parse documents r.(Doc.documentId))
    as [m|] eqn:E; [|reflexivity].
  destruct (getLatest_some Date_parse _ _ _ E) as (_ & _ & Hge).
  specialize (Hge r Hin eq_refl).
  rewrite (Versions.cv_opp r.(Doc.version) m.(Doc.version)) in Hge.
  destruct (Versions.cv_range r.(Doc.version) m.(Doc.version)) as [H|[H|H]];
    rewrite H in *; simpl;
    first [reflexivity | lia | rewrite Hd; reflexivity].
Qed.

Lemma find_id documents id r :
  findDocumentByValidationId documents id = Some r ->
  id = Some r.(Doc.validationId).
Proof.
  intros H. apply find_some in H. destruct H as [_ H].
  apply strict_eq_true in H. exact H.
Qed.

Lemma find_none_iff documents id :
  findDocumentByValidationId documents id = None <->
  forall x, In x documents -> id <> Some x.(Doc.validationId).
Proof.
  unfold findDocumentByValidationId. split.
  - intros H x Hx Hid. apply (find_none _ _ H) in Hx.
    apply strict_eq_true in Hid. simpl in Hx. congruence.
  - intros H.
    match goal with
    | |- find ?f _ = None => destruct (find f documents) as [r|] eqn:E
    end; [|reflexivity].
    apply find_some in E. destruct E as [Hin Hr].
    apply strict_eq_true in Hr. destruct (H r Hin Hr).
Qed.

(** What each display tells. *)
Lemma resolve_cases Date_parse records id :
  match resolve Date_parse records id with
  | NoId => no_id id = true
  | NotFound =>
      no_id id = false /\ findDocumentByValidationId records id = None
  | Latest current =>
      no_id id = false
      /\ findDocumentByValidationId records id = Some current
      /\ isLatestVersion Date_parse records current = true
  | Outdated current latest =>
      no_id id = false
      /\ findDocumentByValidationId records id = Some current
      /\ isLatestVersion Date_parse records current = false
      /\ getLatestDocumentVersion Date_parse records
           current.(Doc.documentId) = Some latest
  | Failed => False
  end.
Proof.
  destruct (no_id id) eqn:Hid.
  - rewrite resolve_no_id by assumption. reflexivity.
  - rewrite resolve_id by assumption.
    destruct (findDocumentByValidationId records id) as [current|] eqn:E;
      [|auto].
    destruct (isLatestVersion Date_parse records current) eqn:El; [auto|].
    destruct (getLatestDocumentVersion _ _ _) as [latest|] eqn:Eg; [auto|].
    apply find_in in E.
    apply (proj1 (getLatest_none _ _ _) Eg current E eq_refl).
Qed.

End ShownFacts.

(** X7.  A record of the array whose date the host does not read is
    never the latest for [isLatestVersion]; looked up by its id it is
    shown as outdated, and when it is the only record of the array, as
    outdated by itself. *)
Theorem undated_record_outdated
    (Date_parse : string -> option Z)
    (documents : list DocumentRecord) (record : DocumentRecord)
    (Hin : In record documents)
    (Hdate : Date_parse record.(Doc.date) = None) :
  isLatestVersion Date_parse documents record = false
  /\ (forall id,
        no_id id = false ->
        findDocumentByValidationId documents id = Some record ->
        exists latest,
          resolve Date_parse documents id = Outdated record latest)
  /\ (record.(Doc.validationId) <> ""%string ->
      resolve Date_parse [record] (Some record.(Doc.validationId))
      = Outdated record record).
Proof.
  pose proof (ShownFacts.undated_not_latest Date_parse documents record
                Hin Hdate) as Hnot.
  split; [exact Hnot|split].
  - intros id Hid Hfind.
    pose proof (ShownFacts.resolve_cases Date_parse documents id) as H.
    rewrite resolve_id in H |- * by assumption.
    rewrite Hfind, Hnot in H |- *.
    destruct (getLatestDocumentVersion _ _ _) as [latest|]; [|destruct H].
    exists latest. reflexivity.
  - intros Hne.
    assert (Hid : no_id (Some record.(Doc.validationId)) = false).
    { simpl. apply String.eqb_neq. exact Hne. }
    rewrite resolve_id by assumption.
    unfold findDocumentByValidationId. simpl.
    rewrite String.eqb_refl.
    rewrite (ShownFacts.undated_not_latest Date_parse [record] record)
      by (simpl; auto).
    unfold getLatestDocumentVersion. simpl.
    rewrite String.eqb_refl. reflexivity.
Qed.

Lemma undated_record_outdated_witness :
  resolve ISODate.parse [undated_doc] (Some "A"%string)
  = Outdated undated_doc undated_doc.
Proof.
  apply (proj2 (proj2 (undated_record_outdated ISODate.parse [undated_doc]
                         undated_doc (or_introl eq_refl) eq_refl))).
  discriminate.
Defined.

(** X8.  What is shown tells what was found: no id is shown exactly for
    a null or empty id, not found exactly when the id is some string no
    record carries; a record shown as latest or as outdated is a record
    of the array with the id asked for, and the latest record shown
    beside an outdated one is a record of the array with the same
    document id and a version that is not below. *)
Theorem resolve_sound
    (Date_parse : string -> option Z)
    (records : list DocumentRecord) (id : option string) :
  (resolve Date_parse records id = NoId <-> no_id id = true)
  /\ (resolve Date_parse records id = NotFound <->
      no_id id = false
      /\ forall x, In x records -> id <> Some x.(Doc.validationId))
  /\ (forall current,
        resolve Date_parse records id = Latest current ->
        In current records /\ id = Some current.(Doc.validationId)
        /\ isLatestVersion Date_parse records current = true)
  /\ (forall current latest,
        resolve Date_parse records id = Outdated current latest ->
        In current records /\ id = Some current.(Doc.validationId)
        /\ isLatestVersion Date_parse records current = false
        /\ In latest records
        /\ latest.(Doc.documentId) = current.(Doc.documentId)
        /\ 0 <= compareVersions latest.(Doc.version) current.(Doc.version)).
Proof.
  pose proof (ShownFacts.resolve_cases Date_parse records id) as H.
  split; [|split; [|split]].
  - split.
    + intros E. rewrite E in H. exact H.
    + apply resolve_no_id.
  - split.
    + intros E. rewrite E in H. destruct H as [Hid Hf].
      split; [exact Hid|]. apply ShownFacts.find_none_iff, Hf.
    + intros [Hid Hf]. rewrite resolve_id by assumption.
      rewrite (proj2 (ShownFacts.find_none_iff records id) Hf). reflexivity.
  - intros current E. rewrite E in H. destruct H as (_ & Hf & Hl).
    repeat split; auto.
    + apply (find_in _ _ _ Hf).
    + apply (ShownFacts.find_id _ _ _ Hf).
  - intros current latest E. rewrite E in H.
    destruct H as (_ & Hf & Hl & Hg).
    destruct (getLatest_some Date_parse _ _ _ Hg) as (Hin & Hdoc & Hge).
    pose proof (find_in _ _ _ Hf) as Hc.
    repeat split; auto.
    apply (ShownFacts.find_id _ _ _ Hf).
Qed.

(** X9.  With dates the host reads, the record shown as the latest
    beside an outdated one is strictly above it: a greater version, or
    an equal version and a later date; it is never the outdated record
    itself. *)
Theorem outdated_strictly_below
    (Date_parse : string -> option Z)
    (records : list DocumentRecord) (id : option string)
    (current latest : DocumentRecord)
    (Hdated : Forall (dated Date_parse) records)
    (Hshown : resolve Date_parse records id = Outdated current latest) :
  below Date_parse current latest /\ latest <> current.
Proof.
  pose proof (ShownFacts.resolve_cases Date_parse records id) as H.
  rewrite Hshown in H. destruct H as (_ & Hf & Hl & Hg).
  destruct (getLatest_some Date_parse _ _ _ Hg) as (Hin & _ & Hge).
  pose proof (find_in _ _ _ Hf) as Hc.
  rewrite Forall_forall in Hdated.
  assert (Hb : below Date_parse current latest).
  { apply (LatestFacts.isLatest_false Date_parse records current latest);
      auto. }
  split; [exact Hb|].
  intros ->. apply (LatestFacts.below_irrefl Date_parse current Hb).
Qed.

Lemma outdated_strictly_below_witness :
  below ISODate.parse docA docB /\ docB <> docA.
Proof.
  apply (outdated_strictly_below ISODate.parse [docA; docB]
           (Some "A"%string) docA docB).
  - repeat constructor; discriminate.
  - reflexivity.
Defined.

(** ** Where the documents are loaded from *)

Module PathFacts.

Lemma includes_slash_free s :
  slash_free s = true -> JSString.includes "/" s = false.
Proof.
  induction s as [|c s IH]; simpl; [reflexivity|].
  intros H. apply andb_true_iff in H. destruct H as [Hc Hs].
  apply negb_true_iff in Hc. rewrite (IH Hs), Hc. reflexivity.
Qed.

Lemma lastIndexOf_slash_free s :
  slash_free s = true -> JSString.lastIndexOf "/" s = -1.
Proof.
  induction s as [|c s IH]; simpl; [reflexivity|].
  intros H. apply andb_true_iff in H. destruct H as [Hc Hs].
  apply negb_true_iff in Hc. rewrite (IH Hs), Hc. reflexivity.
Qed.

Lemma includes_slash dir file :
  JSString.includes "/" (dir ++ String "/" file) = true.
Proof.
  induction dir as [|c dir IH]; simpl.
  - reflexivity.
  - rewrite IH. apply orb_true_r.
Qed.

Lemma lastIndexOf_slash dir file :
  slash_free file = true ->
  JSString.lastIndexOf "/" (dir ++ String "/" file)
  = Z.of_nat (String.length dir).
Proof.
  intros Hf. induction dir as [|c dir IH].
  - cbn [append JSString.lastIndexOf String.length].
    rewrite (lastIndexOf_slash_free file Hf). reflexivity.
  - cbn [append JSString.lastIndexOf String.length]. rewrite IH.
    destruct (Z.leb_spec 0 (Z.of_nat (String.length dir))); lia.
Qed.

Lemma substring_prefix a b :
  String.substring 0 (String.length a) (a ++ b) = a.
Proof. induction a as [|c a IH]; simpl; [destruct b; reflexivity|congruence]. Qed.

Lemma length_append a b :
  String.length (a ++ b) = (String.length a + String.length b)%nat.
Proof. induction a as [|c a IH]; simpl; congruence. Qed.

Lemma append_assoc a b c : ((a ++ b) ++ c = a ++ (b ++ c))%string.
Proof. induction a as [|x a IH]; simpl; congruence. Qed.

Lemma substring_dir dir file :
  JSString.substring 0 (Z.of_nat (String.length dir) + 1)
    (dir ++ String "/" file)
  = (dir ++ "/")%string.
Proof.
  unfold JSString.substring.
  rewrite length_append. cbn [String.length].
  set (n := String.length dir). set (k := String.length file).
  replace (Z.min (Z.max 0 0) (Z.of_nat (n + S k))) with 0 by lia.
  replace (Z.min (Z.max (Z.of_nat n + 1) 0) (Z.of_nat (n + S k)))
    with (Z.of_nat (S n)) by lia.
  replace (Z.to_nat (Z.min 0 (Z.of_nat (S n)))) with 0%nat by lia.
  replace (Z.to_nat (Z.max 0 (Z.of_nat (S n)) - Z.min 0 (Z.of_nat (S n))))
    with (String.length (dir ++ "/")) by (rewrite length_append; simpl; lia).
  replace (dir ++ String "/" file)%string with ((dir ++ "/") ++ file)%string
    by (rewrite append_assoc; reflexivity).
  apply substring_prefix.
Qed.

End PathFacts.

(** X10.  The documents are asked for beside the page: the last segment
    of the path, after its last slash, gives way to documents.json; a
    path without a slash gives documents.json alone. *)
Theorem documentsPath_beside_page (dir file : string)
    (Hfile : slash_free file = true) :
  Loader.documentsPath (dir ++ String "/" file)
  = (dir ++ "/documents.json")%string
  /\ Loader.documentsPath file = "documents.json"%string.
Proof.
  split.
  - unfold Loader.documentsPath.
    rewrite PathFacts.includes_slash, (PathFacts.lastIndexOf_slash _ _ Hfile).
    assert (E : String.eqb (dir ++ String "/" file) "" = false)
      by (destruct dir; reflexivity).
    rewrite E. cbn [negb andb].
    destruct (Z.leb_spec 0 (Z.of_nat (String.length dir))); [|lia].
    rewrite PathFacts.substring_dir, PathFacts.append_assoc. reflexivity.
  - unfold Loader.documentsPath.
    rewrite (PathFacts.includes_slash_free _ Hfile), andb_false_r.
    reflexivity.
Qed.

Lemma documentsPath_beside_page_witness :
  Loader.documentsPath "/document/index.html" = "/document/documents.json"%string
  /\ Loader.documentsPath "index.html" = "documents.json"%string.
Proof.
  apply (documentsPath_beside_page "/document" "index.html"). reflexivity.
Defined.

(** ** Loading and its failures *)

Module LoaderFacts.

Lemma errorMessage_not_empty message :
  Loader.errorMessage message <> ""%string.
Proof.
  unfold Loader.errorMessage.
  destruct (JSString.includes "HTTP error" message); [discriminate|].
  destruct (JSString.includes "Failed to fetch" message
            || JSString.includes "NetworkError" message); [discriminate|].
  destruct (JSString.includes "JSON" message); [discriminate|].
  destruct (negb (String.eqb message "")); discriminate.
Qed.

Lemma resolve_not_failed Date_parse records id :
  resolve Date_parse records id <> Failed.
Proof.
  intros E. pose proof (ShownFacts.resolve_cases Date_parse records id) as H.
  rewrite E in H. exact H.
Qed.

Lemma show_not_empty null_message display message :
  Loader.show null_message display = Loader.ErrorState message ->
  message <> ""%string.
Proof.
  destruct display; simpl; try discriminate.
  intros H. injection H as <-. apply errorMessage_not_empty.
Qed.

Lemma show_shown null_message display shown :
  Loader.show null_message display = Loader.Shown shown -> shown = display.
Proof.
  destruct display; simpl; try discriminate;
    intros H; injection H as <-; reflexivity.
Qed.

Lemma init_loaded Date_parse protocol pathname fetch null_message id
    status documents :
  fetch (Loader.documentsPath pathname)
  = Loader.Response status (Loader.Array (Loader.Records documents)) ->
  Loader.ok status = true ->
  Loader.init Date_parse protocol pathname fetch null_message id
  = Loader.Shown (resolve Date_parse documents id).
Proof.
  intros Hf Hok. unfold Loader.init, Loader.loadDocuments.
  rewrite Hf, Hok. cbn [negb].
  pose proof (resolve_not_failed Date_parse documents id) as Hnf.
  destruct (resolve Date_parse documents id); try reflexivity.
  contradiction.
Qed.

End LoaderFacts.

(** X11.  When [fetch] answers with a status from 200 to 299 and an
    array of records whose fields are strings, the page shows the
    display of [validateDocument] on those records and the id: on such
    records [validateDocument] does not throw.  A display is shown only
    after a status from 200 to 299 and a body that is an array; on an
    array that is not one of such records it is the display
    [validateDocument] ends in there, if it does not throw.  Whenever
    the error state is shown, its message is not empty. *)
Theorem init_shows_when_loaded
    (Date_parse : string -> option Z) (protocol pathname : string)
    (fetch : string -> Loader.Fetched) (null_message : string)
    (id : option string) :
  (forall status documents,
     fetch (Loader.documentsPath pathname)
     = Loader.Response status (Loader.Array (Loader.Records documents)) ->
     Loader.ok status = true ->
     Loader.init Date_parse protocol pathname fetch null_message id
     = Loader.Shown (resolve Date_parse documents id))
  /\ (forall display,
        Loader.init Date_parse protocol pathname fetch null_message id
        = Loader.Shown display ->
        exists status jsonData,
          fetch (Loader.documentsPath pathname)
          = Loader.Response status (Loader.Array jsonData)
          /\ Loader.ok status = true
          /\ match jsonData with
             | Loader.Records documents =>
                 display = resolve Date_parse documents id
             | Loader.Other validate => validate id = inr display
             end)
  /\ (forall message,
        Loader.init Date_parse protocol pathname fetch null_message id
        = Loader.ErrorState message ->
        message <> ""%string).
Proof.
  split; [|split].
  - intros status documents Hf Hok.
    eapply LoaderFacts.init_loaded; eassumption.
  - intros display. unfold Loader.init, Loader.loadDocuments.
    destruct (fetch (Loader.documentsPath pathname))
      as [e|status [e| |jsonData]] eqn:Ef.
    + destruct (Loader.isTypeError e && _);
        [destruct (String.eqb protocol "file:")|]; discriminate.
    + destruct (Loader.ok status); cbn [negb]; [|discriminate].
      destruct (Loader.isTypeError e && _);
        [destruct (String.eqb protocol "file:")|]; discriminate.
    + destruct (Loader.ok status); discriminate.
    + destruct (Loader.ok status) eqn:Hok; cbn [negb]; [|discriminate].
      intros H. exists status, jsonData.
      split; [reflexivity|]. split; [exact Hok|].
      destruct jsonData as [documents|validate].
      * apply (LoaderFacts.show_shown _ _ _ H).
      * destruct (validate id) as [e|shown]; [discriminate|].
        rewrite (LoaderFacts.show_shown _ _ _ H). reflexivity.
  - intros message. unfold Loader.init.
    destruct (Loader.loadDocuments protocol pathname fetch)
      as [e|[documents|validate]].
    + intros H. injection H as <-. apply LoaderFacts.errorMessage_not_empty.
    + apply LoaderFacts.show_not_empty.
    + destruct (validate id) as [e|shown].
      * intros H. injection H as <-.
        apply LoaderFacts.errorMessage_not_empty.
      * apply LoaderFacts.show_not_empty.
Qed.

(** X12.  How a failed load is told: a status outside 200 to 299 is
    shown with its number; a JSON body that is no array is shown as an
    invalid database; and a network failure on a page opened from a file
    is shown as the advice to use a web server. *)
Theorem init_failures
    (Date_parse : string -> option Z) (protocol pathname : string)
    (fetch : string -> Loader.Fetched) (null_message : string)
    (id : option string) :
  (forall status json,
     fetch (Loader.documentsPath pathname) = Loader.Response status json ->
     Loader.ok status = false ->
     Loader.init Date_parse protocol pathname fetch null_message id
     = Loader.ErrorState
         ("Failed to load documents database. HTTP Status: HTTP error! status: "
          ++ JSString.of_number status))
  /\ (forall status,
        fetch (Loader.documentsPath pathname)
        = Loader.Response status Loader.NotArray ->
        Loader.ok status = true ->
        Loader.init Date_parse protocol pathname fetch null_message id
        = Loader.ErrorState
            "Invalid documents database format. Please check documents.json syntax.")
  /\ (forall e,
        fetch (Loader.documentsPath pathname) = Loader.Rejected e ->
        e.(Loader.isTypeError) = true ->
        JSString.includes "fetch" e.(Loader.message)
        || JSString.includes "Failed" e.(Loader.message) = true ->
        protocol = "file:"%string ->
        Loader.init Date_parse protocol pathname fetch null_message id
        = Loader.ErrorState
            "Error: Cannot load documents when opening file directly. Please use a web server (e.g., http://localhost:3033).").
Proof.
  split; [|split].
  - intros status json Hf Hok. unfold Loader.init, Loader.loadDocuments.
    rewrite Hf, Hok. reflexivity.
  - intros status Hf Hok. unfold Loader.init, Loader.loadDocuments.
    rewrite Hf, Hok. reflexivity.
  - intros e Hf Ht Hm ->. unfold Loader.init, Loader.loadDocuments.
    rewrite Hf, Ht, Hm. reflexivity.
Qed.

Lemma init_failures_witness :
  Loader.init ISODate.parse "https:" "/document/index.html" not_found_host
    "" (Some "A"%string)
  = Loader.ErrorState
      "Failed to load documents database. HTTP Status: HTTP error! status: 404".
Proof.
  apply (proj1 (init_failures ISODate.parse "https:" "/document/index.html"
                  not_found_host "" (Some "A"%string))
           404%N Loader.NotArray); reflexivity.
Defined.

Lemma init_shows_when_loaded_witness :
  Loader.init ISODate.parse "https:" "/document/index.html" example_host
    "" (Some "A"%string)
  = Loader.Shown (Outdated docA docB).
Proof.
  apply (proj1 (init_shows_when_loaded ISODate.parse "https:"
                  "/document/index.html" example_host ""
                  (Some "A"%string))
           200%N [docA; docB]); reflexivity.
Defined.

(** ** Links in the contact text *)

Module HtmlFacts.

Lemma append_empty s : (s ++ "")%string = s.
Proof. induction s as [|c s IH]; simpl; congruence. Qed.

Lemma concat_cons x l :
  String.concat "" (x :: l) = (x ++ String.concat "" l)%string.
Proof. destruct l; simpl; [rewrite append_empty|]; reflexivity. Qed.

Lemma substring_drop n s :
  (String.substring 0 n s ++ drop n s)%string = s.
Proof.
  revert s. induction n as [|n IH]; intros [|c s]; simpl;
    try reflexivity.
  rewrite IH. reflexivity.
Qed.

(** *** The patterns *)

Lemma literal_length pattern s r :
  RegExp.literal pattern s = Some r ->
  String.length s = (String.length pattern + String.length r)%nat.
Proof.
  revert s. induction pattern as [|a p IH]; intros s H; simpl in *.
  - injection H as <-. reflexivity.
  - destruct s as [|c s]; [discriminate|].
    destruct (Ascii.eqb _ _); [|discriminate].
    simpl. rewrite (IH _ H). reflexivity.
Qed.

Lemma literal_app pattern s r x :
  RegExp.literal pattern s = Some r ->
  RegExp.literal pattern (s ++ x) = Some (r ++ x)%string.
Proof.
  revert s. induction pattern as [|a p IH]; intros s H; simpl in *.
  - injection H as <-. reflexivity.
  - destruct s as [|c s]; [discriminate|]. simpl.
    destruct (Ascii.eqb _ _); [|discriminate]. apply IH, H.
Qed.

Lemma whitespace_upper w :
  JS.is_whitespace w = true -> RegExp.upper w = w.
Proof.
  destruct w as [[|] [|] [|] [|] [|] [|] [|] [|]]; vm_compute;
    intros H; first [reflexivity | discriminate H].
Qed.

Lemma literal_straddle pattern b w x r :
  solid pattern = true -> JS.is_whitespace w = true ->
  RegExp.literal pattern ((b ++ String w "") ++ x) = Some r ->
  exists b0,
    RegExp.literal pattern (b ++ String w "") = Some (b0 ++ String w "")%string
    /\ r = ((b0 ++ String w "") ++ x)%string.
Proof.
  intros Hp Hw. revert b. induction pattern as [|a p IH]; intros b H.
  - simpl in *. injection H as <-. exists b. split; reflexivity.
  - simpl in Hp. apply andb_true_iff in Hp. destruct Hp as [Ha Hp].
    apply negb_true_iff in Ha.
    destruct b as [|c b]; simpl in *.
    + rewrite (whitespace_upper w Hw) in *.
      destruct (Ascii.eqb_spec (RegExp.upper a) w) as [E|E];
        [|discriminate].
      rewrite E in Ha. congruence.
    + destruct (Ascii.eqb _ _); [|discriminate]. apply (IH Hp), H.
Qed.

Lemma scheme_length s r :
  RegExp.scheme s = Some r -> (String.length r < String.length s)%nat.
Proof.
  unfold RegExp.scheme.
  destruct (RegExp.literal "http" s) as [r1|] eqn:E1; [|discriminate].
  apply literal_length in E1. simpl in E1.
  destruct (RegExp.literal "s" r1) as [r2|] eqn:E2.
  - destruct (RegExp.literal "://" r2) as [r3|] eqn:E3.
    + intros H. injection H as <-.
      apply literal_length in E2, E3. simpl in *. lia.
    + intros H. apply literal_length in H. simpl in H. lia.
  - intros H. apply literal_length in H. simpl in H. lia.
Qed.

Lemma scheme_app s r x :
  RegExp.scheme s = Some r ->
  RegExp.scheme (s ++ x) = Some (r ++ x)%string.
Proof.
  unfold RegExp.scheme.
  destruct (RegExp.literal "http" s) as [r1|] eqn:E1; [|discriminate].
  rewrite (literal_app _ _ _ x E1).
  destruct (RegExp.literal "s" r1) as [r2|] eqn:E2.
  - rewrite (literal_app _ _ _ x E2).
    destruct (RegExp.literal "://" r2) as [r3|] eqn:E3.
    + rewrite (literal_app _ _ _ x E3). intros H. injection H as <-.
      reflexivity.
    + (* the [s] is there, but no [://] after it: none without it *)
      intros H. exfalso. clear E1 E3.
      destruct r1 as [|c r1]; [discriminate|]. simpl in E2, H.
      destruct c as [[|] [|] [|] [|] [|] [|] [|] [|]];
        vm_compute in E2, H; discriminate.
  - intros H.
    assert (E : RegExp.literal "s" (r1 ++ x) = None).
    { destruct r1 as [|c r1]; [discriminate|]. simpl in E2, H |- *.
      destruct c as [[|] [|] [|] [|] [|] [|] [|] [|]];
        vm_compute in E2, H |- *;
        first [reflexivity | discriminate]. }
    rewrite E. apply literal_app, H.
Qed.

Lemma scheme_straddle b w x r :
  JS.is_whitespace w = true ->
  RegExp.scheme ((b ++ String w "") ++ x) = Some r ->
  exists r0, RegExp.scheme (b ++ String w "") = Some r0.
Proof.
  intros Hw. unfold RegExp.scheme.
  destruct (RegExp.literal "http" ((b ++ String w "") ++ x))
    as [r1|] eqn:E1; [|discriminate].
  destruct (literal_straddle "http" b w x r1 eq_refl Hw E1)
    as (b1 & F1 & ->).
  rewrite F1.
  destruct (RegExp.literal "s" ((b1 ++ String w "") ++ x))
    as [r2|] eqn:E2.
  - destruct (literal_straddle "s" b1 w x r2 eq_refl Hw E2)
      as (b2 & F2 & ->).
    rewrite F2.
    destruct (RegExp.literal "://" ((b2 ++ String w "") ++ x))
      as [r3|] eqn:E3.
    + destruct (literal_straddle "://" b2 w x r3 eq_refl Hw E3)
        as (b3 & F3 & ->).
      rewrite F3. intros _. eexists. reflexivity.
    + intros H.
      destruct (literal_straddle "://" b1 w x r eq_refl Hw H)
        as (b3 & F3 & ->).
      rewrite F3.
      destruct (RegExp.literal "://" (b2 ++ String w ""));
        eexists; reflexivity.
  - intros H.
    destruct (literal_straddle "://" b1 w x r eq_refl Hw H)
      as (b3 & F3 & ->).
    rewrite F3.
    destruct (RegExp.literal "s" (b1 ++ String w "")) as [r2|];
      [destruct (RegExp.literal "://" r2)|]; eexists; reflexivity.
Qed.

Lemma urlTest_straddle b w x :
  JS.is_whitespace w = true ->
  RegExp.urlTest ((b ++ String w "") ++ x) = true ->
  RegExp.urlTest (b ++ String w "") = true.
Proof.
  intros Hw. unfold RegExp.urlTest.
  destruct (RegExp.scheme ((b ++ String w "") ++ x)) as [r|] eqn:E.
  - destruct (scheme_straddle b w x r Hw E) as (r0 & ->). reflexivity.
  - destruct (RegExp.literal "www." ((b ++ String w "") ++ x))
      as [r|] eqn:E2; [|discriminate].
    destruct (literal_straddle "www." b w x r eq_refl Hw E2)
      as (b0 & -> & _).
    intros _. destruct (RegExp.scheme (b ++ String w "")); reflexivity.
Qed.

Lemma run_le s : (RegExp.run s <= String.length s)%nat.
Proof.
  induction s as [|c s IH]; simpl; [lia|].
  destruct (JS.is_whitespace c); lia.
Qed.

Lemma run_app r x :
  RegExp.run r = String.length r ->
  RegExp.run (r ++ x) = (String.length r + RegExp.run x)%nat.
Proof.
  induction r as [|c r IH]; simpl; [reflexivity|].
  destruct (JS.is_whitespace c); [discriminate|].
  intros H. rewrite IH by lia. reflexivity.
Qed.

Lemma then_run_bounds s prefix n :
  (forall r, prefix = Some r -> (String.length r < String.length s)%nat) ->
  RegExp.then_run s prefix = Some n ->
  (1 <= n <= String.length s)%nat.
Proof.
  intros Hr. unfold RegExp.then_run.
  destruct prefix as [r|]; [|discriminate].
  specialize (Hr r eq_refl). pose proof (run_le r) as Hle.
  destruct (RegExp.run r); [discriminate|].
  intros H. injection H as <-. lia.
Qed.

Lemma www_length s r :
  RegExp.literal "www." s = Some r ->
  (String.length r < String.length s)%nat.
Proof. intros H. apply literal_length in H. simpl in H. lia. Qed.

Lemma urlPattern_bounds s n :
  RegExp.urlPattern s = Some n -> (1 <= n <= String.length s)%nat.
Proof.
  unfold RegExp.urlPattern.
  destruct (RegExp.then_run s (RegExp.scheme s)) as [m|] eqn:E.
  - intros H. injection H as <-.
    apply (then_run_bounds s _ _ (scheme_length s) E).
  - apply then_run_bounds. apply www_length.
Qed.

Lemma urlPattern_urlTest s n :
  RegExp.urlPattern s = Some n -> RegExp.urlTest s = true.
Proof.
  unfold RegExp.urlPattern, RegExp.urlTest, RegExp.then_run.
  destruct (RegExp.scheme s); [reflexivity|].
  destruct (RegExp.literal "www." s); [reflexivity|discriminate].
Qed.

Lemma then_run_app u rest prefix :
  (forall r, prefix = Some r -> (String.length r < String.length u)%nat) ->
  RegExp.then_run u prefix = Some (String.length u) ->
  RegExp.run rest = O ->
  RegExp.then_run (u ++ rest)
    match prefix with
    | Some r => Some (r ++ rest)%string
    | None => None
    end = Some (String.length u).
Proof.
  intros Hr H Hrest. unfold RegExp.then_run in *.
  destruct prefix as [r|]; [|discriminate].
  specialize (Hr r eq_refl). pose proof (run_le r) as Hle.
  assert (Hrun : RegExp.run r = String.length r).
  { destruct (RegExp.run r); [discriminate|]. injection H as H. lia. }
  rewrite (run_app r rest Hrun), Hrest, !PathFacts.length_append.
  rewrite Hrun in H. rewrite Nat.add_0_r.
  destruct (String.length r) as [|k]; [discriminate|].
  injection H as H. f_equal. lia.
Qed.

Lemma www_not_scheme s r :
  RegExp.literal "www." s = Some r -> RegExp.scheme s = None.
Proof.
  destruct s as [|c s]; [discriminate|].
  unfold RegExp.scheme. simpl.
  destruct c as [[|] [|] [|] [|] [|] [|] [|] [|]]; vm_compute;
    first [reflexivity | discriminate].
Qed.

Lemma urlPattern_app u rest :
  RegExp.urlPattern u = Some (String.length u) ->
  RegExp.run rest = O ->
  RegExp.urlPattern (u ++ rest) = Some (String.length u).
Proof.
  unfold RegExp.urlPattern. intros H Hrest.
  destruct (RegExp.then_run u (RegExp.scheme u)) as [m|] eqn:E.
  - injection H as ->.
    pose proof (then_run_app u rest _ (scheme_length u) E Hrest) as A.
    destruct (RegExp.scheme u) as [r|] eqn:Es; [|discriminate].
    rewrite (scheme_app _ _ rest Es), A. reflexivity.
  - pose proof (then_run_app u rest _ (www_length u) H Hrest) as A.
    destruct (RegExp.literal "www." u) as [r|] eqn:Ew; [|discriminate].
    rewrite (literal_app _ _ _ rest Ew), A.
    rewrite (www_not_scheme _ _ (literal_app _ _ _ rest Ew)). reflexivity.
Qed.

(** *** The split *)

Lemma split_skip a s text :
  RegExp.split_loop (a ++ s) text (String.length a)
  = RegExp.split_loop s text O.
Proof.
  induction a as [|c a IH]; simpl; [destruct s; reflexivity|exact IH].
Qed.

Lemma split_match u rest text :
  RegExp.urlPattern (u ++ rest) = Some (String.length u) ->
  RegExp.split_loop (u ++ rest) text O
  = text :: u :: RegExp.split_loop rest "" O.
Proof.
  intros H. pose proof (urlPattern_bounds _ _ H) as [Hn _].
  destruct u as [|c u]; [simpl in Hn; lia|].
  change (RegExp.split_loop (String c u ++ rest) text O)
    with (match RegExp.urlPattern (String c u ++ rest) with
          | Some n =>
              text :: String.substring 0 n (String c u ++ rest)
                   :: RegExp.split_loop (u ++ rest) "" (n - 1)
          | None =>
              RegExp.split_loop (u ++ rest) (text ++ String c "") O
          end).
  rewrite H, PathFacts.substring_prefix.
  cbn [String.length]. rewrite Nat.sub_succ, Nat.sub_0_r, split_skip.
  reflexivity.
Qed.

Lemma split_free s text :
  match_free s = true -> RegExp.split_loop s text O = [(text ++ s)%string].
Proof.
  revert text. induction s as [|c s IH]; intros text H.
  - simpl. rewrite append_empty. reflexivity.
  - cbn [match_free] in H. cbn [RegExp.split_loop].
    destruct (RegExp.urlPattern (String c s)); [discriminate|].
    rewrite (IH _ H), PathFacts.append_assoc. reflexivity.
Qed.

Lemma link_free_match_free s : link_free s = true -> match_free s = true.
Proof.
  induction s as [|c s IH]; intros H.
  - reflexivity.
  - cbn [link_free] in H. apply andb_true_iff in H. destruct H as [Ht Hs].
    apply negb_true_iff in Ht. cbn [match_free].
    destruct (RegExp.urlPattern (String c s)) as [n|] eqn:E.
    + rewrite (urlPattern_urlTest _ _ E) in Ht. discriminate.
    + apply IH, Hs.
Qed.

Lemma link_free_urlTest s : link_free s = true -> RegExp.urlTest s = false.
Proof.
  destruct s; cbn [link_free]; intros H; apply andb_true_iff in H;
    destruct H as [H _]; apply negb_true_iff, H.
Qed.

Lemma spaced_form c s :
  spaced (String c s) = true ->
  exists b w, String c s = (b ++ String w "")%string
              /\ JS.is_whitespace w = true.
Proof.
  revert c. induction s as [|d s IH]; intros c H.
  - exists ""%string, c. split; [reflexivity|exact H].
  - change (spaced (String d s) = true) in H.
    destruct (IH d H) as (b & w & E & Hw).
    exists (String c b), w. simpl. rewrite E. split; [reflexivity|exact Hw].
Qed.

Lemma spaced_tl c s : spaced (String c s) = true -> spaced s = true.
Proof. destruct s; [reflexivity|intros H; exact H]. Qed.

Lemma split_pre pre s text :
  link_free pre = true -> spaced pre = true ->
  RegExp.split_loop (pre ++ s) text O
  = RegExp.split_loop s (text ++ pre) O.
Proof.
  revert text. induction pre as [|c pre IH]; intros text Hl Hs.
  - simpl. rewrite append_empty. reflexivity.
  - pose proof (link_free_urlTest _ Hl) as Ht.
    destruct (spaced_form c pre Hs) as (b & w & E & Hw).
    assert (Hn : RegExp.urlPattern (String c pre ++ s) = None).
    { destruct (RegExp.urlPattern (String c pre ++ s)) as [n|] eqn:En;
        [|reflexivity].
      apply urlPattern_urlTest in En. rewrite E in En.
      apply (urlTest_straddle b w s Hw) in En. rewrite <- E in En.
      congruence. }
    change (RegExp.split_loop (String c pre ++ s) text O)
      with (match RegExp.urlPattern (String c pre ++ s) with
            | Some n =>
                text :: String.substring 0 n (String c pre ++ s)
                     :: RegExp.split_loop (pre ++ s) "" (n - 1)
            | None =>
                RegExp.split_loop (pre ++ s) (text ++ String c "") O
            end).
    rewrite Hn. cbn [link_free] in Hl. apply andb_true_iff in Hl.
    rewrite (IH _ (proj2 Hl) (spaced_tl _ _ Hs)), PathFacts.append_assoc.
    reflexivity.
Qed.

Lemma concat_split_loop s :
  forall text skip,
    (skip <= String.length s)%nat ->
    String.concat "" (RegExp.split_loop s text skip)
    = (text ++ drop skip s)%string.
Proof.
  induction s as [|c s IH]; intros text skip Hk.
  - simpl in Hk. replace skip with O by lia. simpl.
    rewrite append_empty. reflexivity.
  - destruct skip as [|k].
    + cbn [RegExp.split_loop drop].
      destruct (RegExp.urlPattern (String c s)) as [n|] eqn:E.
      * destruct (urlPattern_bounds _ _ E) as [H1 H2].
        cbn [String.length] in H2.
        rewrite !concat_cons, IH by lia.
        destruct n as [|n]; [lia|].
        rewrite Nat.sub_succ, Nat.sub_0_r.
        change (drop n s) with (drop (S n) (String c s)).
        cbn [append]. rewrite substring_drop. reflexivity.
      * rewrite IH by lia. cbn [drop].
        rewrite PathFacts.append_assoc. destruct s; reflexivity.
    + cbn [RegExp.split_loop drop]. cbn [String.length] in Hk.
      apply IH. lia.
Qed.

(** *** The escaping *)

Lemma escape_app a b :
  Html.escape (a ++ b) = (Html.escape a ++ Html.escape b)%string.
Proof.
  induction a as [|c a IH]; simpl; [reflexivity|].
  rewrite IH, PathFacts.append_assoc. reflexivity.
Qed.

Lemma includes_char c s :
  JSString.includes (String c "") s
  = existsb (Ascii.eqb c) (list_ascii_of_string s).
Proof.
  induction s as [|d s IH]; simpl; [reflexivity|].
  rewrite IH, andb_true_r. reflexivity.
Qed.

Lemma includes_char_app c a b :
  JSString.includes (String c "") (a ++ b)
  = JSString.includes (String c "") a || JSString.includes (String c "") b.
Proof.
  induction a as [|d a IH].
  - simpl. destruct b; reflexivity.
  - cbn [append JSString.includes JSString.startsWith].
    rewrite IH, !andb_true_r, orb_assoc. reflexivity.
Qed.

Lemma escape_char_markup c :
  JSString.includes "<" (Html.escape_char c) = false
  /\ JSString.includes ">" (Html.escape_char c) = false.
Proof.
  destruct c as [[|] [|] [|] [|] [|] [|] [|] [|]]; vm_compute;
    split; reflexivity.
Qed.

Lemma escape_length s :
  (String.length s <= String.length (Html.escape s))%nat.
Proof.
  induction s as [|c s IH]; simpl; [lia|].
  rewrite PathFacts.length_append.
  assert (1 <= String.length (Html.escape_char c))%nat; [|lia].
  destruct c as [[|] [|] [|] [|] [|] [|] [|] [|]]; vm_compute; lia.
Qed.

Lemma escape_char_cases c :
  (Html.escape_char c = String c ""
   /\ Ascii.eqb "&" c = false /\ Ascii.eqb "<" c = false
   /\ Ascii.eqb ">" c = false /\ Ascii.eqb "160" c = false)
  \/ (exists x y r, Html.escape_char c = String x (String y r)
      /\ (Ascii.eqb "&" c || Ascii.eqb "<" c
          || Ascii.eqb ">" c || Ascii.eqb "160" c = true)).
Proof.
  destruct c as [[|] [|] [|] [|] [|] [|] [|] [|]];
    first [ left; vm_compute; repeat split; reflexivity
          | right; vm_compute; do 3 eexists; split; reflexivity ].
Qed.

End HtmlFacts.

(** X13.  When the pattern of [linkifyText] matches nowhere in the
    text, the split leaves the text whole.  It is then returned escaped,
    unless it starts the way [urlTest] wants a URL to start (a scheme or
    www. with nothing or white space after it): then the whole text is
    made one link. *)
Theorem linkifyText_without_match (text : string)
    (Hfree : match_free text = true) :
  (RegExp.urlTest text = false ->
   Html.linkifyText (Some text) = Html.escapeHtml (Some text))
  /\ (RegExp.urlTest text = true ->
      Html.linkifyText (Some text)
      = Html.anchor
          (Html.escapeHtml
             (Some (if JSString.startsWith "www." text
                    then ("https://" ++ text)%string else text)))
          (Html.escapeHtml (Some text))).
Proof.
  assert (E : Html.linkifyText (Some text) = Html.linkifyPart text).
  { destruct text as [|c text]; [reflexivity|].
    unfold Html.linkifyText, RegExp.split.
    rewrite (HtmlFacts.split_free _ "" Hfree). reflexivity. }
  rewrite E. unfold Html.linkifyPart.
  split; intros ->; reflexivity.
Qed.

Lemma linkifyText_without_match_witness :
  Html.linkifyText (Some "http:// x"%string)
  = Html.anchor "http:// x" "http:// x".
Proof.
  apply (proj2 (linkifyText_without_match "http:// x" eq_refl)).
  reflexivity.
Defined.

Module LinkFacts.

Lemma linkifyText_parts s :
  Html.linkifyText (Some s)
  = String.concat "" (map Html.linkifyPart (RegExp.split s)).
Proof. destruct s; reflexivity. Qed.

Lemma escape_plain s :
  Html.escape s = s <->
  JSString.includes "&" s = false /\ JSString.includes "<" s = false
  /\ JSString.includes ">" s = false /\ JSString.includes nbsp s = false.
Proof.
  unfold nbsp. rewrite !HtmlFacts.includes_char.
  induction s as [|c s IH]; [simpl; tauto|].
  cbn [Html.escape list_ascii_of_string existsb].
  destruct (HtmlFacts.escape_char_cases c)
    as [(E & H1 & H2 & H3 & H4)|(x & y & r & E & H)].
  - rewrite E, H1, H2, H3, H4. cbn [append orb]. rewrite <- IH.
    split; [intros H; injection H as H; exact H|intros ->; reflexivity].
  - rewrite E. cbn [append]. split.
    + intros F. injection F as _ F. exfalso.
      pose proof (HtmlFacts.escape_length s) as L.
      apply (f_equal String.length) in F.
      cbn [String.length] in F. rewrite PathFacts.length_append in F. lia.
    + intros (F1 & F2 & F3 & F4). exfalso.
      apply orb_false_iff in F1, F2, F3, F4.
      destruct F1 as [F1 _], F2 as [F2 _], F3 as [F3 _], F4 as [F4 _].
      rewrite F1, F2, F3, F4 in H. discriminate.
Qed.

End LinkFacts.

(** X14.  A URL in running text.  When the text before it is empty or
    ends in white space and a URL starts nowhere in it, and the text
    after it is empty or starts with white space, [linkifyText] gives
    the text before escaped, then the link, then [linkifyText] of the
    text after.  The address of the link is the escaped URL, with
    https:// before it only when the URL starts with www. in lower
    case. *)
Theorem linkifyText_url_in_text (pre u rest : string)
    (Hpre : link_free pre = true) (Hspaced : spaced pre = true)
    (Hu : RegExp.urlPattern u = Some (String.length u))
    (Hrest : RegExp.run rest = O) :
  Html.linkifyText (Some (pre ++ u ++ rest)%string)
  = (Html.escapeHtml (Some pre)
     ++ Html.anchor
          (Html.escapeHtml
             (Some (if JSString.startsWith "www." u
                    then ("https://" ++ u)%string else u)))
          (Html.escapeHtml (Some u))
     ++ Html.linkifyText (Some rest))%string.
Proof.
  rewrite !LinkFacts.linkifyText_parts. unfold RegExp.split.
  rewrite (HtmlFacts.split_pre pre (u ++ rest) "" Hpre Hspaced).
  rewrite (HtmlFacts.split_match u rest _
             (HtmlFacts.urlPattern_app u rest Hu Hrest)).
  cbn [map append]. rewrite !HtmlFacts.concat_cons.
  unfold Html.linkifyPart at 1 2.
  rewrite (HtmlFacts.link_free_urlTest pre Hpre).
  rewrite (HtmlFacts.urlPattern_urlTest u _ Hu). reflexivity.
Qed.

Lemma linkifyText_url_in_text_witness :
  Html.linkifyText (Some "see www.x.org now"%string)
  = ("see " ++ Html.anchor "https://www.x.org" "www.x.org" ++ " now")%string.
Proof.
  apply (linkifyText_url_in_text "see " "www.x.org" " now");
    reflexivity.
Defined.

(** X15.  The split of [linkifyText] loses nothing: its parts, joined
    in their order, are the text. *)
Theorem split_join (text : string) :
  String.concat "" (RegExp.split text) = text.
Proof.
  unfold RegExp.split.
  rewrite (HtmlFacts.concat_split_loop text "" O (Nat.le_0_l _)).
  reflexivity.
Qed.

(** X16.  [escapeHtml] never yields < or >.  It returns the text as it
    is exactly when the text has none of & < > and the no-break space.
    A double quote passes through it unchanged, with the text on either
    side escaped on its own. *)
Theorem escapeHtml_text (s : string) :
  JSString.includes "<" (Html.escapeHtml (Some s)) = false
  /\ JSString.includes ">" (Html.escapeHtml (Some s)) = false
  /\ (Html.escapeHtml (Some s) = s <->
      JSString.includes "&" s = false /\ JSString.includes "<" s = false
      /\ JSString.includes ">" s = false
      /\ JSString.includes nbsp s = false)
  /\ (forall b,
        Html.escapeHtml (Some (s ++ Html.quote ++ b)%string)
        = (Html.escapeHtml (Some s) ++ Html.quote
           ++ Html.escapeHtml (Some b))%string).
Proof.
  cbn [Html.escapeHtml].
  assert (M : JSString.includes "<" (Html.escape s) = false
              /\ JSString.includes ">" (Html.escape s) = false).
  { induction s as [|c s [IH1 IH2]]; [split; reflexivity|].
    cbn [Html.escape]. rewrite !HtmlFacts.includes_char_app, IH1, IH2.
    destruct (HtmlFacts.escape_char_markup c) as [-> ->].
    split; reflexivity. }
  destruct M as [M1 M2].
  split; [exact M1|]. split; [exact M2|].
  split; [apply LinkFacts.escape_plain|].
  intros b. rewrite !HtmlFacts.escape_app. reflexivity.
Qed.
